(** * kaminpy, chapter 1: the arithmetic expression interpreter [kamin1.py]

    A shallow embedding of the reader, the evaluator and the error classes of
    [src/kaminpy/chapter1/kamin1.py], and the properties of them that the
    specification states.

    The program is Python 2 ([StandardError], [raw_input], [op.div],
    [inspect.getargspec], [exc.message]).  Three facts of that host matter to
    the embedding and are written out where they are used:
    - [int(token)] gives an [int] up to [sys.maxint] and a [long] beyond it,
      and [isinstance(x, int)] is false of a [long];
    - [op.div] on integers is the classic division, which rounds down;
    - [<] and [>] never fail: on objects that are not both numbers they
      answer by a rule of the host (type names, addresses). *)

From Stdlib Require Import ZArith List String Ascii Bool Lia.
From Stdlib Require Import Decimal DecimalString DecimalZ DecimalFacts.
Import ListNotations.

#[local] Open Scope string_scope.
#[local] Open Scope Z_scope.

(** ** Exceptions *)

(** The optional [value] an [InterpreterError] carries: [evaluate] passes
    either the symbol (a [str]) or the value found in operator position. *)
Inductive payload : Type :=
| PName (name : string)
| PInt (n : Z).

(** The classes of [kamin1.py] and the host exceptions its code can raise.
    Only [InvalidOperator] is ever raised with a value. *)
Inductive exn : Type :=
| UnexpectedEndOfInput
| UnexpectedRightParen
| InvalidOperator (value : payload)
| NullExpression
| MissingArguments
| TooManyArguments
| ZeroDivisionError
| TypeError
| IndexError
| NameError.

(** [class ...(InputError)] *)
Definition is_InputError (e : exn) : bool :=
  match e with
  | UnexpectedEndOfInput | UnexpectedRightParen => true
  | _ => false
  end.

(** [class ...(EvaluationError)] *)
Definition is_EvaluationError (e : exn) : bool :=
  match e with
  | InvalidOperator _ | NullExpression | MissingArguments | TooManyArguments => true
  | _ => false
  end.

(** [class InputError(InterpreterError)], [class EvaluationError(InterpreterError)] *)
Definition is_InterpreterError (e : exn) : bool :=
  is_InputError e || is_EvaluationError e.

Inductive result (A : Type) : Type :=
| Ok (a : A)
| Raise (e : exn).
Arguments Ok {A} a.
Arguments Raise {A} e.

(** ** Expressions

    What [read] builds and [evaluate] inspects: Python objects, told apart by
    [isinstance].  [ELong] is the [long] that [int(token)] returns for a
    numeral beyond [sys.maxint]. *)
#[warnings="-register-all"]
Inductive expr : Type :=
| EInt (n : Z)
| ELong (n : Z)
| ESym (name : string)
| EList (items : list expr).

(** ** Tokenizer *)

(** The characters [str.split()] splits on. *)
Definition is_space (c : ascii) : bool :=
  match c with
  | " "%char | "009"%char | "010"%char | "011"%char | "012"%char | "013"%char => true
  | _ => false
  end.

(** [s.replace(old, new)] for a one-character [old]. *)
Fixpoint replace (old : ascii) (new : string) (s : string) : string :=
  match s with
  | EmptyString => EmptyString
  | String c r =>
      if Ascii.eqb c old then new ++ replace old new r
      else String c (replace old new r)
  end.

Definition flush (run : string) : list string :=
  match run with
  | EmptyString => []
  | _ => [run]
  end.

(** [s.split()]: the maximal runs of characters that are not white space;
    [run] is the run being read. *)
Fixpoint split_from (run : string) (s : string) : list string :=
  match s with
  | EmptyString => flush run
  | String c r =>
      if is_space c then (flush run ++ split_from EmptyString r)%list
      else split_from (run ++ String c EmptyString) r
  end.

Definition split (s : string) : list string := split_from EmptyString s.

Definition tokenize (source_code : string) : list string :=
  split (replace ")" " ) " (replace "(" " ( " source_code)).

(** ** Reader *)

Definition is_digit (c : ascii) : bool :=
  match c with
  | "0"%char | "1"%char | "2"%char | "3"%char | "4"%char
  | "5"%char | "6"%char | "7"%char | "8"%char | "9"%char => true
  | _ => false
  end.

(** What is left of [s] after its longest prefix of digits. *)
Fixpoint after_digits (s : string) : string :=
  match s with
  | String c r => if is_digit c then after_digits r else s
  | EmptyString => EmptyString
  end.

(** [$] without [re.MULTILINE]: at the end, or before a last line feed. *)
Definition at_dollar (s : string) : bool :=
  match s with
  | EmptyString => true
  | String "010"%char EmptyString => true
  | _ => false
  end.

(** [\d+$] at the start of [s].  The greedy [\d+] takes every digit; giving
    one back leaves a digit in front of [$], so there is no other way to
    match. *)
Definition match_digits_dollar (s : string) : bool :=
  match s with
  | String c r => is_digit c && at_dollar (after_digits r)
  | EmptyString => false
  end.

(** What follows a leading minus, when there is one. *)
Definition minus_split (t : string) : option string :=
  match t with
  | String "-"%char r => Some r
  | _ => None
  end.

(** [REGEX_INTEGER.match(token)] for [REGEX_INTEGER = re.compile(r'-?\d+$')],
    as a truth value.  [-?] takes a leading minus; without it [\d] would face
    the minus and fail. *)
Definition REGEX_INTEGER_match (token : string) : bool :=
  match minus_split token with
  | Some r => match_digits_dollar r
  | None => match_digits_dollar token
  end.

Definition digit_value (c : ascii) : Z := Z.of_nat (nat_of_ascii c) - 48.

(** The digits of [s] read left to right, as the host's conversion does:
    each digit multiplies what was read by ten. It stops at the first
    character that is not a digit. *)
Fixpoint digits_acc (acc : Z) (s : string) : Z :=
  match s with
  | String c r => if is_digit c then digits_acc (10 * acc + digit_value c) r else acc
  | EmptyString => acc
  end.

(** The number [int(token)] denotes, for a [token] that [REGEX_INTEGER]
    accepts ([int] ignores the line feed that [$] lets through). *)
Definition int_value (token : string) : Z :=
  match minus_split token with
  | Some r => - digits_acc 0 r
  | None => digits_acc 0 token
  end.

Section Reader.

(** [sys.maxint] of the host. *)
Variable maxint : Z.

(** [isinstance(n, int)] of a whole number: it fits the machine word. *)
Definition fits_int (n : Z) : bool := (- maxint - 1 <=? n) && (n <=? maxint).

(** [int(token)]: an [int] when the number fits, a [long] otherwise. *)
Definition int_ (token : string) : expr :=
  let n := int_value token in
  if fits_int n then EInt n else ELong n.

Definition atom (token : string) : expr :=
  if REGEX_INTEGER_match token then int_ token else ESym token.

(** [read] pops tokens off the list it is given; here it returns the list
    that is left. The recursion follows the tokens, not their structure, so
    it is bounded by [fuel]: [None] is running out of it. [read_loop] is
    the [while] loop with the length test that precedes each of its
    condition tests. *)
Fixpoint read_fuel (fuel : nat) (tokens : list string)
  : option (result (expr * list string)) :=
  match fuel with
  | O => None
  | S fuel' =>
      match tokens with
      | [] => Some (Raise UnexpectedEndOfInput)
      | token :: tokens' =>
          if String.eqb token "(" then read_loop fuel' [] tokens'
          else if String.eqb token ")" then Some (Raise UnexpectedRightParen)
          else Some (Ok (atom token, tokens'))
      end
  end
with read_loop (fuel : nat) (parsed : list expr) (tokens : list string)
  : option (result (expr * list string)) :=
  match fuel with
  | O => None
  | S fuel' =>
      match tokens with
      | [] => Some (Raise UnexpectedEndOfInput)
      | token :: tokens' =>
          if negb (String.eqb token ")") then
            match read_fuel fuel' tokens with
            | Some (Ok (e, tokens1)) => read_loop fuel' (parsed ++ [e]) tokens1
            | Some (Raise err) => Some (Raise err)
            | None => None
            end
          else Some (Ok (EList parsed, tokens'))
      end
  end.

(** Every call of [read] removes a token and every turn of the loop makes
    one call, so twice the number of tokens, and one, is fuel enough. *)
Definition read_budget (tokens : list string) : nat := S (2 * List.length tokens).

Definition read (tokens : list string) : option (result (expr * list string)) :=
  read_fuel (read_budget tokens) tokens.

(** [parse] returns the expression and drops what [read] left. *)
Definition parse (source_code : string) : option (result expr) :=
  match read (tokenize source_code) with
  | Some (Ok (e, _)) => Some (Ok e)
  | Some (Raise err) => Some (Raise err)
  | None => None
  end.

End Reader.

(** ** Operators and values *)

(** The seven entries of [operators], named after the function each key is
    bound to ([op.add], ..., and the three [lambda]s). *)
Inductive operator : Type :=
| op_add | op_sub | op_mul | op_div | op_eq | op_lt | op_gt.

(** What [evaluate] returns: a whole number (an [int], or the [long] that
    arithmetic on [int]s overflows into) or one of the functions above. *)
Inductive value : Type :=
| VInt (n : Z)
| VOp (o : operator).

(** A dictionary with [str] keys, in the order it is written. *)
Fixpoint dict_get {A : Type} (d : list (string * A)) (key : string) : option A :=
  match d with
  | [] => None
  | (k, v) :: d' => if String.eqb k key then Some v else dict_get d' key
  end.

Definition operators : list (string * operator) :=
  [ ("+", op_add); ("-", op_sub); ("*", op_mul); ("/", op_div);
    ("=", op_eq); ("<", op_lt); (">", op_gt) ].

Definition operator_eqb (a b : operator) : bool :=
  match a, b with
  | op_add, op_add | op_sub, op_sub | op_mul, op_mul | op_div, op_div
  | op_eq, op_eq | op_lt, op_lt | op_gt, op_gt => true
  | _, _ => false
  end.

(** [a == b]: numbers by value, functions by identity, never a number and a
    function. *)
Definition value_eqb (a b : value) : bool :=
  match a, b with
  | VInt x, VInt y => x =? y
  | VOp f, VOp g => operator_eqb f g
  | _, _ => false
  end.

(** Division of whole numbers in the host: the quotient truncated, then
    lowered by one when the remainder is not zero and has not the sign of
    the divisor. *)
Definition int_div (x y : Z) : Z :=
  let xdivy := Z.quot x y in
  let xmody := x - xdivy * y in
  if negb (xmody =? 0) && xorb (y <? 0) (xmody <? 0) then xdivy - 1 else xdivy.

(** Truth of a value in a condition: zero is false, everything else, a
    function included, is true. *)
Definition truth (v : value) : bool :=
  match v with
  | VInt n => negb (n =? 0)
  | VOp _ => true
  end.

Section Operators.

(** [cmp(a, b)] of the host for two objects that are not both numbers. *)
Variable host_cmp : value -> value -> comparison.

Definition value_ltb (a b : value) : bool :=
  match a, b with
  | VInt x, VInt y => x <? y
  | _, _ => match host_cmp a b with Lt => true | _ => false end
  end.

Definition value_gtb (a b : value) : bool :=
  match a, b with
  | VInt x, VInt y => x >? y
  | _, _ => match host_cmp a b with Gt => true | _ => false end
  end.

Definition arith (f : Z -> Z -> Z) (a b : value) : result value :=
  match a, b with
  | VInt x, VInt y => Ok (VInt (f x y))
  | _, _ => Raise TypeError
  end.

(** [operator(arg1, arg2)] *)
Definition apply_operator (o : operator) (a b : value) : result value :=
  match o with
  | op_add => arith Z.add a b
  | op_sub => arith Z.sub a b
  | op_mul => arith Z.mul a b
  | op_div =>
      match a, b with
      | VInt x, VInt y =>
          if y =? 0 then Raise ZeroDivisionError else Ok (VInt (int_div x y))
      | _, _ => Raise TypeError
      end
  | op_eq => Ok (VInt (if value_eqb a b then 1 else 0))
  | op_lt => Ok (VInt (if value_ltb a b then 1 else 0))
  | op_gt => Ok (VInt (if value_gtb a b then 1 else 0))
  end.

End Operators.

(** ** Special forms *)

Inductive command : Type :=
| cmd_if | cmd_print | cmd_begin.

Definition commands : list (string * command) :=
  [ ("if", cmd_if); ("print", cmd_print); ("begin", cmd_begin) ].

(** The first two components of [inspect.getargspec(function)]: the named
    parameters and the name of the [*] parameter. *)
Record argspec : Type := {
  fixed_args : list string;
  var_args : option string
}.

(** Read off the three [def] lines. *)
Definition getargspec (function : command) : argspec :=
  match function with
  | cmd_if => {| fixed_args := ["output"; "test"; "conseq"; "alt"]; var_args := None |}
  | cmd_print => {| fixed_args := ["output"; "arg"]; var_args := None |}
  | cmd_begin => {| fixed_args := ["output"; "first"]; var_args := Some "rest" |}
  end.

Definition is_None {A : Type} (o : option A) : bool :=
  match o with
  | None => true
  | Some _ => false
  end.

Definition check_args (function : command) (args : list expr) : result unit :=
  let spec := getargspec function in
  let min_args := List.length (tl (fixed_args spec)) in
  let max_args := min_args in
  if is_None (var_args spec) && (max_args <? List.length args)%nat then
    Raise TooManyArguments
  else if (List.length args <? min_args)%nat then Raise MissingArguments
  else Ok tt.

(** ** Evaluation: a computation that may write to the sink and may fail *)

(** The sink, as the values whose ['%s\n'] lines were written to it, the
    oldest first. *)
Definition sink : Type := list value.

Definition M (A : Type) : Type := sink -> result A * sink.

Definition ret {A : Type} (a : A) : M A := fun out => (Ok a, out).

Definition raise {A : Type} (e : exn) : M A := fun out => (Raise e, out).

Definition lift {A : Type} (r : result A) : M A := fun out => (r, out).

Definition bind {A B : Type} (m : M A) (k : A -> M B) : M B :=
  fun out =>
    match m out with
    | (Ok a, out') => k a out'
    | (Raise e, out') => (Raise e, out')
    end.

(** [output.write('%s\n' % result)] *)
Definition write (v : value) : M unit := fun out => (Ok tt, (out ++ [v])%list).

Declare Scope eval_scope.
Delimit Scope eval_scope with eval.
Notation "x <- m ;; k" := (bind m (fun x => k))
  (at level 61, m at next level, right associativity) : eval_scope.
Notation "m ;; k" := (bind m (fun _ => k))
  (at level 61, right associativity) : eval_scope.
#[local] Open Scope eval_scope.

Section Commands.

(** The evaluator the handlers call back. *)
Variable evaluate : expr -> M value.

Definition if_cmd (test conseq alt : expr) : M value :=
  t <- evaluate test ;;
  evaluate (if truth t then conseq else alt).

Definition print_cmd (arg : expr) : M value :=
  result <- evaluate arg ;;
  write result ;;
  ret result.

(** The turns of the [for] loop after the first. *)
Fixpoint begin_rest (result : value) (rest : list expr) : M value :=
  match rest with
  | [] => ret result
  | exp :: rest' => v <- evaluate exp ;; begin_rest v rest'
  end.

Definition begin_cmd (first : expr) (rest : list expr) : M value :=
  v <- evaluate first ;; begin_rest v rest.

(** [command(output, *args)]: the host binds [args] to the parameters and
    fails with [TypeError] when they do not fit. *)
Definition call (function : command) (args : list expr) : M value :=
  match function, args with
  | cmd_if, [test; conseq; alt] => if_cmd test conseq alt
  | cmd_print, [arg] => print_cmd arg
  | cmd_begin, first :: rest => begin_cmd first rest
  | _, _ => raise TypeError
  end.

(** [[evaluate(exp, output) for exp in expression]] *)
Fixpoint evaluate_each (expression : list expr) : M (list value) :=
  match expression with
  | [] => ret []
  | exp :: rest => v <- evaluate exp ;; vs <- evaluate_each rest ;; ret (v :: vs)
  end.

End Commands.

(** [expression[0] in commands], with [commands[expression[0]]] when it is:
    a list is not hashable. *)
Definition find_command (head : expr) : result (option command) :=
  match head with
  | ESym name => Ok (dict_get commands name)
  | EInt _ | ELong _ => Ok None
  | EList _ => Raise TypeError
  end.

(** [arg1, arg2 = exps], the [ValueError] turned into the interpreter's own
    error by the text of its message. *)
Definition unpack2 (exps : list value) : result (value * value) :=
  match exps with
  | [arg1; arg2] => Ok (arg1, arg2)
  | [] | [_] => Raise MissingArguments
  | _ => Raise TooManyArguments
  end.

Section Evaluator.

Variable host_cmp : value -> value -> comparison.

(** The third test, [expression[0] in commands], indexes the expression
    before anything else: a [long] cannot be indexed and the empty list has
    no first element. In the application rule the operator is the first
    value, and [callable] tells the operators from the numbers. *)
Fixpoint evaluate (expression : expr) : M value :=
  match expression with
  | EInt n => ret (VInt n)
  | ESym name =>
      match dict_get operators name with
      | Some o => ret (VOp o)
      | None => raise (InvalidOperator (PName name))
      end
  | ELong _ => raise TypeError
  | EList [] => raise IndexError
  | EList ((head :: args) as items) =>
      found <- lift (find_command head) ;;
      match found with
      | Some command =>
          lift (check_args command args) ;;
          call evaluate command args
      | None =>
          exps <- evaluate_each evaluate items ;;
          match exps with
          | [] => raise NullExpression
          | VOp o :: exps' =>
              a <- lift (unpack2 exps') ;;
              lift (apply_operator host_cmp o (fst a) (snd a))
          | VInt n :: _ => raise (InvalidOperator (PInt n))
          end
      end
  end.

End Evaluator.

(** [str(n)] of a whole number, as in ['%s\n' % result] and [print(value)]:
    its decimal numeral, with a minus sign when negative and no zero in
    front. *)
Definition str_int (n : Z) : string := NilZero.string_of_int (Z.to_int n).

(** ** The read-eval-print loop *)

(** [except (InterpreterError, ZeroDivisionError) as exc] *)
Definition repl_catches (exc : exn) : bool :=
  is_InterpreterError exc ||
  match exc with
  | ZeroDivisionError => true
  | _ => false
  end.

(** What one turn of the loop does with a line it has read. *)
Inductive turn : Type :=
| Printed (v : value)        (* [print(value)] *)
| Reported (exc : exn)       (* [print('! ' + str(exc))] *)
| Uncaught (exc : exn).      (* the exception leaves [repl] *)

Definition repl_except (r : result value) : turn :=
  match r with
  | Ok v => Printed v
  | Raise exc => if repl_catches exc then Reported exc else Uncaught exc
  end.

Section Repl.

Variable host_cmp : value -> value -> comparison.

(** [evaluate(<parsed>, output)]: the arguments are evaluated in order, the
    parsed line first, then the global name [output], which the module never
    binds; [output] is what it is bound to from outside, if anything. *)
Definition repl_try (output : option sink) (parsed : result expr)
  : result value * option sink :=
  match parsed with
  | Raise exc => (Raise exc, output)
  | Ok expression =>
      match output with
      | None => (Raise NameError, None)
      | Some out =>
          let (r, out') := evaluate host_cmp expression out in (r, Some out')
      end
  end.

Definition repl_turn (maxint : Z) (output : option sink) (line : string)
  : option (turn * option sink) :=
  match parse maxint line with
  | Some parsed =>
      let (r, output') := repl_try output parsed in Some (repl_except r, output')
  | None => None
  end.

End Repl.

(** * The notions of the specification *)

(** ** Parentheses *)

(** Whether the tokens close the list they start in, [S depth] lists being
    open at their start. *)
Fixpoint closes (depth : nat) (tokens : list string) : bool :=
  match tokens with
  | [] => false
  | token :: rest =>
      if String.eqb token "(" then closes (S depth) rest
      else if String.eqb token ")" then
        match depth with
        | O => true
        | S depth' => closes depth' rest
        end
      else closes depth rest
  end.

(** The number of tokens of [tokens] that are [paren]. *)
Fixpoint count_token (paren : string) (tokens : list string) : nat :=
  match tokens with
  | [] => O
  | token :: rest =>
      if String.eqb token paren then S (count_token paren rest)
      else count_token paren rest
  end.

(** ** Numerals *)

Fixpoint all_digits (s : string) : bool :=
  match s with
  | EmptyString => true
  | String c r => is_digit c && all_digits r
  end.

Definition digits1 (s : string) : bool :=
  match s with
  | EmptyString => false
  | _ => all_digits s
  end.

(** An optional leading minus followed by one or more digits. *)
Definition integer_token (t : string) : bool :=
  match minus_split t with
  | Some r => digits1 r
  | None => digits1 t
  end.

(** The number a string of digits denotes: each digit counts for the power
    of ten of its place. *)
Fixpoint positional (s : string) : Z :=
  match s with
  | EmptyString => 0
  | String c r => digit_value c * 10 ^ Z.of_nat (String.length r) + positional r
  end.

Definition denoted (t : string) : Z :=
  match minus_split t with
  | Some r => - positional r
  | None => positional t
  end.

Definition starts_nonzero (s : string) : bool :=
  match s with
  | String c _ => negb (Ascii.eqb c "0")
  | EmptyString => false
  end.

(** A numeral with no zero in front and no minus before zero. *)
Definition canonical (t : string) : bool :=
  match minus_split t with
  | Some r => starts_nonzero r
  | None => String.eqb t "0" || starts_nonzero t
  end.

(** A token that is not a parenthesis, as [tokenize] makes them: not empty,
    free of white space and of parentheses. *)
Fixpoint plain_chars (s : string) : bool :=
  match s with
  | EmptyString => true
  | String c r =>
      negb (is_space c) && negb (Ascii.eqb c "(") && negb (Ascii.eqb c ")")
      && plain_chars r
  end.

Definition plain_token (t : string) : bool :=
  match t with
  | EmptyString => false
  | _ => plain_chars t
  end.

(** The number an expression is, when it is one. *)
Definition number_of (e : expr) : option Z :=
  match e with
  | EInt n | ELong n => Some n
  | _ => None
  end.

(** ** Special forms *)

(** The declared shape of each special form: the least number of arguments
    and, unless the tail is unbounded, the greatest. *)
Definition declared_arity (function : command) : nat * option nat :=
  match function with
  | cmd_if => (3%nat, Some 3%nat)
  | cmd_print => (1%nat, Some 1%nat)
  | cmd_begin => (1%nat, None)
  end.

(** The head is a symbol that names a special form. *)
Definition names_special_form (head : expr) : bool :=
  match head with
  | ESym name => String.eqb name "if" || String.eqb name "print" || String.eqb name "begin"
  | _ => false
  end.

Definition is_list (e : expr) : bool :=
  match e with
  | EList _ => true
  | _ => false
  end.

(** What an application makes of the values of its elements. *)
Definition apply_values (host_cmp : value -> value -> comparison)
  (exps : list value) : result value :=
  match exps with
  | [] => Raise NullExpression
  | VInt n :: _ => Raise (InvalidOperator (PInt n))
  | VOp o :: [arg1; arg2] => apply_operator host_cmp o arg1 arg2
  | VOp o :: ([] | [_]) => Raise MissingArguments
  | VOp o :: _ => Raise TooManyArguments
  end.

(** ** What a call of [read] and a run of its loop establish *)

Definition read_post (tokens : list string) (r : result (expr * list string)) : Prop :=
  match r with
  | Ok (_, rest) =>
      exists used,
        tokens = (used ++ rest)%list /\ used <> [] /\
        count_token "(" used = count_token ")" used /\
        (forall d, closes d tokens = closes d rest) /\
        (forall inner, tokens = "(" :: inner -> closes 0 inner = true)
  | Raise UnexpectedEndOfInput =>
      tokens = [] \/
      exists rest, tokens = "(" :: rest /\ forall d, closes d rest = false
  | Raise UnexpectedRightParen => exists rest, tokens = ")" :: rest
  | Raise _ => False
  end.

Definition loop_post (tokens : list string) (r : result (expr * list string)) : Prop :=
  match r with
  | Ok (_, rest) =>
      exists used,
        tokens = (used ++ rest)%list /\ used <> [] /\
        count_token ")" used = S (count_token "(" used) /\
        closes 0 tokens = true /\
        forall d, closes (S d) tokens = closes d rest
  | Raise UnexpectedEndOfInput => forall d, closes d tokens = false
  | Raise _ => False
  end.

(** ** The shape of tokens *)

(** A string in which every parenthesis stands between two blanks, as the
    two [replace] leave it; [padded_open_only] is the string between them. *)
Inductive padded_open_only : string -> Prop :=
| poo_nil : padded_open_only EmptyString
| poo_char c r :
    Ascii.eqb c "(" = false -> padded_open_only r -> padded_open_only (String c r)
| poo_open r : padded_open_only r -> padded_open_only (" ( " ++ r).

Inductive padded : string -> Prop :=
| padded_nil : padded EmptyString
| padded_char c r :
    Ascii.eqb c "(" = false -> Ascii.eqb c ")" = false ->
    padded r -> padded (String c r)
| padded_open r : padded r -> padded (" ( " ++ r)
| padded_close r : padded r -> padded (" ) " ++ r).

(** What [tokenize] makes: a parenthesis, or a token free of them. *)
Definition token_shape (t : string) : Prop :=
  t = "(" \/ t = ")" \/ plain_token t = true.

(** ** Induction on expressions *)

Section ExprInduction.

Variable P : expr -> Prop.
Hypothesis HInt : forall n, P (EInt n).
Hypothesis HLong : forall n, P (ELong n).
Hypothesis HSym : forall name, P (ESym name).
Hypothesis HList : forall items, Forall P items -> P (EList items).

(** Induction on an expression, with the property known of the items of a
    list. *)
Fixpoint expr_nested_ind (e : expr) : P e :=
  match e with
  | EInt n => HInt n
  | ELong n => HLong n
  | ESym name => HSym name
  | EList items =>
      HList items
        ((fix each (l : list expr) : Forall P l :=
            match l with
            | [] => Forall_nil P
            | x :: r => Forall_cons x (expr_nested_ind x) (each r)
            end) items)
  end.

End ExprInduction.

(** [evaluate] does not raise [NullExpression] on [e]. *)
Definition never_raises_NullExpression
  (host_cmp : value -> value -> comparison) (e : expr) : Prop :=
  forall out, fst (evaluate host_cmp e out) <> Raise NullExpression.

(** ** A sample host

    For the examples: 64-bit [int]s, and an order of mixed objects that none
    of the examples consults. *)

Definition maxint64 : Z := 9223372036854775807.

Definition cmp_unused (a b : value) : comparison := Eq.

(** Parse a line and evaluate it with an empty sink. *)
Definition run (line : string) : option (result value * sink) :=
  match parse maxint64 line with
  | Some (Ok e) => Some (evaluate cmp_unused e [])
  | Some (Raise exc) => Some (Raise exc, [])
  | None => None
  end.

(** * Further notions *)

(** ** Text and tokens *)

(** Nothing but white space. *)
Fixpoint is_blank (s : string) : bool :=
  match s with
  | EmptyString => true
  | String c r => is_space c && is_blank r
  end.

(** The characters of [s] that are not white space, in order. *)
Fixpoint without_spaces (s : string) : string :=
  match s with
  | EmptyString => EmptyString
  | String c r => if is_space c then without_spaces r else String c (without_spaces r)
  end.

(** The tokens one after the other, nothing between them. *)
Fixpoint glued (tokens : list string) : string :=
  match tokens with
  | [] => EmptyString
  | t :: rest => t ++ glued rest
  end.

(** The two [replace] of [tokenize]. *)
Definition padded_text (s : string) : string :=
  replace ")" " ) " (replace "(" " ( " s).

(** ** Trees of tokens *)

(** What a text in parentheses is, before its atoms are told apart: a token,
    or a list of such trees. *)
#[warnings="-register-all"]
Inductive ttree : Type :=
| TLeaf (token : string)
| TNode (children : list ttree).

(** The tokens of a tree, a list between its parentheses. *)
Fixpoint flatten (tr : ttree) : list string :=
  match tr with
  | TLeaf token => [token]
  | TNode children => "(" :: (flat_map flatten children ++ [")"])%list
  end.

(** No leaf is a parenthesis. *)
Fixpoint leaves_ok (tr : ttree) : bool :=
  match tr with
  | TLeaf token => negb (String.eqb token "(") && negb (String.eqb token ")")
  | TNode children => forallb leaves_ok children
  end.

(** Every leaf is a token that [tokenize] can make. *)
Fixpoint leaves_plain (tr : ttree) : bool :=
  match tr with
  | TLeaf token => plain_token token
  | TNode children => forallb leaves_plain children
  end.

(** The expression of a tree: [atom] at the leaves. *)
Fixpoint build (maxint : Z) (tr : ttree) : expr :=
  match tr with
  | TLeaf token => atom maxint token
  | TNode children => EList (map (build maxint) children)
  end.

Section TreeInduction.

Variable P : ttree -> Prop.
Hypothesis HLeaf : forall token, P (TLeaf token).
Hypothesis HNode : forall children, Forall P children -> P (TNode children).

Fixpoint ttree_nested_ind (tr : ttree) : P tr :=
  match tr with
  | TLeaf token => HLeaf token
  | TNode children =>
      HNode children
        ((fix each (l : list ttree) : Forall P l :=
            match l with
            | [] => Forall_nil P
            | x :: r => Forall_cons x (ttree_nested_ind x) (each r)
            end) children)
  end.

End TreeInduction.

(** ** Writing an expression *)

(** The tree an expression is written as: a number by its numeral, a symbol
    by its name. *)
Fixpoint tree_of (e : expr) : ttree :=
  match e with
  | EInt n | ELong n => TLeaf (str_int n)
  | ESym name => TLeaf name
  | EList items => TNode (map tree_of items)
  end.

Definition unparse (e : expr) : list string := flatten (tree_of e).

(** The text of an expression: its tokens, a blank between them. *)
Definition show (e : expr) : string := String.concat " " (unparse e).

(** An expression [read] can give back: an [int] fits the machine word, a
    [long] does not, a symbol is a token and no numeral. *)
Fixpoint readable (maxint : Z) (e : expr) : bool :=
  match e with
  | EInt n => fits_int maxint n
  | ELong n => negb (fits_int maxint n)
  | ESym name => plain_token name && negb (integer_token name)
  | EList items => forallb (readable maxint) items
  end.

(** ** Computations *)

(** [m] can return [a]. *)
Definition returns {A : Type} (m : M A) (a : A) : Prop :=
  exists out out', m out = (Ok a, out').

(** [m] only adds to the sink, and what it adds and what it gives do not
    depend on what the sink held. *)
Definition appends {A : Type} (m : M A) : Prop :=
  forall out, m out = (fst (m []), (out ++ snd (m []))%list).

(** [m] leaves the sink as it was. *)
Definition silent {A : Type} (m : M A) : Prop :=
  forall out, snd (m out) = out.

(** The exceptions that leave [evaluate]. *)
Definition may_raise (x : exn) : bool :=
  match x with
  | InvalidOperator _ | MissingArguments | TooManyArguments
  | ZeroDivisionError | TypeError | IndexError => true
  | _ => false
  end.

Definition raises_only {A : Type} (m : M A) : Prop :=
  forall out x, fst (m out) = Raise x -> may_raise x = true.

Definition allowed {A : Type} (r : result A) : Prop :=
  match r with
  | Ok _ => True
  | Raise x => may_raise x = true
  end.

(** ** Shapes of expressions *)

Definition heads_print (items : list expr) : bool :=
  match items with
  | ESym name :: _ => String.eqb name "print"
  | _ => false
  end.

(** Some list of [e] is headed by the symbol [print]. *)
Fixpoint uses_print (e : expr) : bool :=
  match e with
  | EList items => heads_print items || existsb uses_print items
  | _ => false
  end.

(** The language of the module's docstring: an integer, of any size, or a
    list of a value-op and expressions. *)
Fixpoint documented (e : expr) : bool :=
  match e with
  | EInt _ | ELong _ => true
  | EList (ESym name :: args) =>
      match dict_get operators name with
      | Some _ => forallb documented args
      | None => false
      end
  | _ => false
  end.

(** Some integer of [e] is beyond [sys.maxint], and so a [long]. *)
Fixpoint has_long (e : expr) : bool :=
  match e with
  | ELong _ => true
  | EList items => existsb has_long items
  | _ => false
  end.

(** In it, every value-op has two operands. *)
Fixpoint binary (e : expr) : bool :=
  match e with
  | EList (_ :: args) =>
      (List.length args =? 2)%nat && forallb binary args
  | _ => true
  end.

(** [e] inside [k] nested [print]. *)
Fixpoint printed (k : nat) (e : expr) : expr :=
  match k with
  | O => e
  | S k' => EList [ESym "print"; printed k' e]
  end.

(** ** Outcomes *)

(** A number for a value. *)
Definition is_number (r : result value) : Prop := exists n, r = Ok (VInt n).

(** All of them numbers. *)
Definition all_numbers (vs : list value) : Prop :=
  Forall (fun v => exists n, v = VInt n) vs.

(** What evaluating an expression of the documented language can come to
    when its integers are [int]s, and what it can come to when besides
    every operator has its two operands. *)
Definition mild (r : result value) : Prop :=
  is_number r \/ r = Raise MissingArguments \/ r = Raise TooManyArguments \/
  r = Raise ZeroDivisionError.

Definition milder (r : result value) : Prop :=
  is_number r \/ r = Raise ZeroDivisionError.

(** The outcome of an expression of the documented language: beside the
    mild ones there is the host's [TypeError], on a [long]. *)
Definition documented_evaluation
  (host_cmp : value -> value -> comparison) (e : expr) : Prop :=
  documented e = true ->
  forall out, exists r,
    evaluate host_cmp e out = (r, out) /\
    (mild r \/ r = Raise TypeError) /\
    (has_long e = false -> mild r /\ (binary e = true -> milder r)).

(** ** The text of an error *)

(** [self.__class__.__doc__], for the classes of the module. *)
Definition doc (x : exn) : option string :=
  match x with
  | UnexpectedEndOfInput => Some "unexpected end of input"
  | UnexpectedRightParen => Some "unexpected )"
  | InvalidOperator _ => Some "invalid operator"
  | NullExpression => Some "null expression"
  | MissingArguments => Some "missing arguments"
  | TooManyArguments => Some "too many arguments"
  | ZeroDivisionError | TypeError | IndexError | NameError => None
  end.

(** [self.value] *)
Definition value_of (x : exn) : option payload :=
  match x with
  | InvalidOperator v => Some v
  | _ => None
  end.

Fixpoint has_char (c : ascii) (s : string) : bool :=
  match s with
  | EmptyString => false
  | String a r => Ascii.eqb a c || has_char c r
  end.

(** The quote [repr] puts around a [str]: the single one, unless the string
    holds one and no double one. *)
Definition quote_of (s : string) : ascii :=
  if has_char "'" s && negb (has_char "034" s) then "034"%char else "'"%char.

Definition hex_digit (n : nat) : ascii :=
  match n with
  | 0 => "0" | 1 => "1" | 2 => "2" | 3 => "3" | 4 => "4" | 5 => "5" | 6 => "6"
  | 7 => "7" | 8 => "8" | 9 => "9" | 10 => "a" | 11 => "b" | 12 => "c"
  | 13 => "d" | 14 => "e" | _ => "f"
  end%char%nat.

(** How [repr] writes one character of a [str] between quotes [q]. *)
Definition escape (q c : ascii) : string :=
  let n := nat_of_ascii c in
  if Ascii.eqb c q || Ascii.eqb c "\" then String "\" (String c EmptyString)
  else if Ascii.eqb c "009" then "\t"
  else if Ascii.eqb c "010" then "\n"
  else if Ascii.eqb c "013" then "\r"
  else if (n <? 32)%nat || (127 <=? n)%nat then
    String "\" (String "x" (String (hex_digit (n / 16))
                             (String (hex_digit (n mod 16)) EmptyString)))
  else String c EmptyString.

Fixpoint escape_all (q : ascii) (s : string) : string :=
  match s with
  | EmptyString => EmptyString
  | String c r => escape q c ++ escape_all q r
  end.

(** [repr(s)] of a [str]. *)
Definition repr_str (s : string) : string :=
  let q := quote_of s in
  String q (escape_all q s ++ String q EmptyString).

(** [repr(self.value)] *)
Definition repr (v : payload) : string :=
  match v with
  | PName s => repr_str s
  | PInt n => str_int n
  end.

(** [InterpreterError.__str__]; [None] for an exception of the host, whose
    text is the host's. *)
Definition InterpreterError_str (x : exn) : option string :=
  match doc x with
  | Some msg =>
      match value_of x with
      | Some v => Some (msg ++ ": " ++ repr v)
      | None => Some msg
      end
  | None => None
  end.

Definition hex_value (h : ascii) : nat :=
  match h with
  | "0" => 0 | "1" => 1 | "2" => 2 | "3" => 3 | "4" => 4 | "5" => 5 | "6" => 6
  | "7" => 7 | "8" => 8 | "9" => 9 | "a" => 10 | "b" => 11 | "c" => 12
  | "d" => 13 | "e" => 14 | _ => 15
  end%char%nat.

(** Reading back the first character that [escape] wrote. *)
Definition unescape_head (s : string) : option (ascii * string) :=
  match s with
  | String "\" (String "x" (String h1 (String h2 r))) =>
      Some (ascii_of_nat (16 * hex_value h1 + hex_value h2), r)
  | String "\" (String "t" r) => Some ("009"%char, r)
  | String "\" (String "n" r) => Some ("010"%char, r)
  | String "\" (String "r" r) => Some ("013"%char, r)
  | String "\" (String c r) => Some (c, r)
  | String c r => Some (c, r)
  | EmptyString => None
  end.

(** ** Calling a handler *)

(** Whether the host can bind [args] to the parameters of the handler after
    [output]: one to each named parameter, any left over to a starred
    one. *)
Definition binds (function : command) (args : list expr) : bool :=
  let spec := getargspec function in
  let named := List.length (tl (fixed_args spec)) in
  match var_args spec with
  | Some _ => (named <=? List.length args)%nat
  | None => (List.length args =? named)%nat
  end.

(** * Proof tools *)

Arguments dict_get : simpl never.

(** Compute the verdict of [check_args] on arguments of a known number. *)
Ltac run_check :=
  match goal with
  | |- context [check_args ?f ?a] =>
      let r := eval cbv in (check_args f a) in
      change (check_args f a) with r; cbv beta iota
  end.

(** Compute the value of a known digit. *)
Ltac digit_value_compute :=
  repeat match goal with
  | |- context [digit_value ?c] =>
      let v := eval vm_compute in (digit_value c) in
      change (digit_value c) with v
  end.

Ltac digit_cases H :=
  apply uint_of_char_spec in H;
  repeat (destruct H as [[-> ->]|H]); [..|destruct H as [-> ->]].

(** * The tokenizer *)

Lemma replace_open_padded (s : string) : padded_open_only (replace "(" " ( " s).
Proof.
  induction s as [|c r IH]; simpl; [constructor|].
  destruct (Ascii.eqb c "(") eqn:E.
  - apply (poo_open _ IH).
  - apply (poo_char _ _ E IH).
Qed.

Lemma replace_close_padded (s : string) :
  padded_open_only s -> padded (replace ")" " ) " s).
Proof.
  induction 1 as [|c r Hc _ IH|r _ IH]; simpl.
  - constructor.
  - destruct (Ascii.eqb c ")") eqn:E.
    + apply (padded_close _ IH).
    + apply (padded_char _ _ Hc E IH).
  - apply (padded_open _ IH).
Qed.

Lemma plain_chars_snoc (run : string) (c : ascii) :
  plain_chars run = true -> is_space c = false ->
  Ascii.eqb c "(" = false -> Ascii.eqb c ")" = false ->
  plain_chars (run ++ String c EmptyString) = true.
Proof.
  intros Hr Hs Ho Hc. induction run as [|a run IH]; simpl.
  - rewrite Hs, Ho, Hc. reflexivity.
  - simpl in Hr. apply andb_true_iff in Hr. destruct Hr as [-> Hr].
    exact (IH Hr).
Qed.

Lemma flush_shape (run : string) :
  plain_chars run = true -> Forall token_shape (flush run).
Proof.
  intros H. destruct run as [|c r]; simpl; constructor; [|constructor].
  right. right. exact H.
Qed.

Lemma split_from_shape (s : string) :
  padded s ->
  forall run, plain_chars run = true -> Forall token_shape (split_from run s).
Proof.
  induction 1 as [|c r Ho Hc _ IH|r _ IH|r _ IH]; intros run Hrun.
  - apply flush_shape. exact Hrun.
  - simpl. destruct (is_space c) eqn:Hs.
    + apply Forall_app. split; [apply flush_shape; exact Hrun|apply IH; reflexivity].
    + apply IH. apply plain_chars_snoc; assumption.
  - simpl. apply Forall_app. split; [apply flush_shape; exact Hrun|].
    constructor; [left; reflexivity|apply IH; reflexivity].
  - simpl. apply Forall_app. split; [apply flush_shape; exact Hrun|].
    constructor; [right; left; reflexivity|apply IH; reflexivity].
Qed.

(** Every token is a parenthesis or a run of characters free of white space
    and of parentheses. *)
Lemma tokenize_shape (source_code : string) :
  Forall token_shape (tokenize source_code).
Proof.
  unfold tokenize, split. apply split_from_shape; [|reflexivity].
  apply replace_close_padded, replace_open_padded.
Qed.

(** * The reader *)

Lemma count_token_app paren (a b : list string) :
  count_token paren (a ++ b) = (count_token paren a + count_token paren b)%nat.
Proof.
  induction a as [|t a IH]; simpl; [reflexivity|].
  destruct (String.eqb t paren); simpl; rewrite IH; reflexivity.
Qed.

Lemma closes_plain d t rest :
  String.eqb t "(" = false -> String.eqb t ")" = false ->
  closes d (t :: rest) = closes d rest.
Proof. intros H1 H2. simpl. rewrite H1, H2. reflexivity. Qed.

(** The tokens close the list they start in when some prefix of them holds
    as many closing parentheses more than opening ones as lists are open. *)
Lemma closes_prefix (tokens : list string) : forall d,
  closes d tokens = true <->
  exists used rest,
    tokens = (used ++ rest)%list /\
    count_token ")" used = (count_token "(" used + S d)%nat.
Proof.
  induction tokens as [|t ts IH]; intros d; simpl.
  - split; [discriminate|]. intros (used & rest & Heq & Hc).
    destruct used; [simpl in Hc; lia|discriminate Heq].
  - destruct (String.eqb_spec t "(") as [->|Ho];
      [|destruct (String.eqb_spec t ")") as [->|Hc]].
    + rewrite IH. split.
      * intros (used & rest & -> & Hc). exists ("(" :: used), rest.
        split; [reflexivity|]. simpl. lia.
      * intros (used & rest & Heq & Hc).
        destruct used as [|u used]; [simpl in Hc; lia|].
        injection Heq as <- ->. simpl in Hc. exists used, rest.
        split; [reflexivity|lia].
    + destruct d as [|d].
      * split; [|reflexivity]. intros _. exists [")"], ts. split; reflexivity.
      * rewrite IH. split.
        -- intros (used & rest & -> & Hc). exists (")" :: used), rest.
           split; [reflexivity|]. simpl. lia.
        -- intros (used & rest & Heq & Hc).
           destruct used as [|u used]; [simpl in Hc; lia|].
           injection Heq as <- ->. simpl in Hc. exists used, rest.
           split; [reflexivity|lia].
    + rewrite IH. split.
      * intros (used & rest & -> & Hcount). exists (t :: used), rest.
        split; [reflexivity|]. simpl.
        destruct (String.eqb_spec t "("); [contradiction|].
        destruct (String.eqb_spec t ")"); [contradiction|]. exact Hcount.
      * intros (used & rest & Heq & Hcount).
        destruct used as [|u used]; [simpl in Hcount; lia|].
        injection Heq as <- ->. simpl in Hcount.
        destruct (String.eqb_spec t "("); [contradiction|].
        destruct (String.eqb_spec t ")"); [contradiction|].
        exists used, rest. split; [reflexivity|exact Hcount].
Qed.

Section ReaderFacts.

Variable maxint : Z.

(** More fuel does not change what [read] has found with less. *)
Lemma read_fuel_mono fuel :
  (forall tokens r, read_fuel maxint fuel tokens = Some r ->
     forall fuel', (fuel <= fuel')%nat -> read_fuel maxint fuel' tokens = Some r) /\
  (forall parsed tokens r, read_loop maxint fuel parsed tokens = Some r ->
     forall fuel', (fuel <= fuel')%nat -> read_loop maxint fuel' parsed tokens = Some r).
Proof.
  induction fuel as [|fuel [IHr IHl]]; split; try discriminate.
  - intros tokens r H [|fuel'] Hle; [lia|].
    simpl in *. destruct tokens as [|t ts]; [exact H|].
    destruct (String.eqb t "("); [apply (IHl _ _ _ H); lia|exact H].
  - intros parsed tokens r H [|fuel'] Hle; [lia|].
    simpl in *. destruct tokens as [|t ts]; [exact H|].
    destruct (negb (String.eqb t ")")); [|exact H].
    destruct (read_fuel maxint fuel (t :: ts)) as [[[e ts1]|err]|] eqn:E;
      try discriminate.
    + rewrite (IHr _ _ E fuel') by lia. apply (IHl _ _ _ H); lia.
    + rewrite (IHr _ _ E fuel') by lia. exact H.
Qed.

(** Whatever the fuel, a result of [read] is one of the three the
    specification names, and it fixes the shape of the tokens. *)
Lemma read_fuel_post fuel :
  (forall tokens r, read_fuel maxint fuel tokens = Some r -> read_post tokens r) /\
  (forall parsed tokens r, read_loop maxint fuel parsed tokens = Some r ->
     loop_post tokens r).
Proof.
  induction fuel as [|fuel [IHr IHl]]; split; try discriminate.
  - intros tokens r H. simpl in H.
    destruct tokens as [|t ts].
    { injection H as <-. simpl. left. reflexivity. }
    destruct (String.eqb t "(") eqn:Eo.
    { apply String.eqb_eq in Eo. subst t.
      specialize (IHl _ _ _ H). destruct r as [[e rest]|err]; simpl in *.
      - destruct IHl as (used & -> & Hne & Hc & H0 & Hd).
        exists ("(" :: used). simpl.
        split; [reflexivity|]. split; [discriminate|]. split; [congruence|].
        split; [exact Hd|]. intros inner [= <-]. exact H0.
      - destruct err; try contradiction. right. eexists; split; [reflexivity|exact IHl]. }
    destruct (String.eqb t ")") eqn:Ec.
    { apply String.eqb_eq in Ec. subst t. injection H as <-. simpl. eexists; reflexivity. }
    injection H as <-. simpl. exists [t]. simpl. rewrite Eo, Ec.
    repeat split; try congruence.
    intros inner [= -> _]. discriminate.
  - intros parsed tokens r H. simpl in H.
    destruct tokens as [|t ts].
    { injection H as <-. simpl. reflexivity. }
    destruct (String.eqb t ")") eqn:Ec; simpl in H.
    { apply String.eqb_eq in Ec. subst t. injection H as <-. simpl.
      exists [")"]. simpl. repeat split; congruence. }
    destruct (read_fuel maxint fuel (t :: ts)) as [[[e ts1]|err]|] eqn:E;
      try discriminate.
    + specialize (IHr _ _ E). specialize (IHl _ _ _ H). simpl in IHr.
      destruct IHr as (used & Hused & Hne & Hc & Hd & _).
      destruct r as [[e' rest]|err]; simpl in IHl |- *.
      * destruct IHl as (used' & -> & Hne' & Hc' & H0 & Hd').
        exists (used ++ used')%list. rewrite Hused, <- app_assoc.
        rewrite !count_token_app, <- Hused.
        repeat split.
        -- destruct used; [congruence|discriminate].
        -- lia.
        -- rewrite Hd. exact H0.
        -- intros d. rewrite Hd. apply Hd'.
      * destruct err; try contradiction. intros d. rewrite Hd. apply IHl.
    + injection H as <-. specialize (IHr _ _ E). simpl in IHr.
      destruct err; try contradiction.
      * destruct IHr as [IHr|(rest & Heq & Hd)]; [discriminate|].
        injection Heq as -> ->. intros d. simpl. apply Hd.
      * destruct IHr as (rest & Heq). injection Heq as -> ->. discriminate.
Qed.

(** What is left after a successful [read] is shorter than what it was given. *)
Lemma read_fuel_shorter fuel tokens e rest :
  read_fuel maxint fuel tokens = Some (Ok (e, rest)) ->
  (List.length rest < List.length tokens)%nat.
Proof.
  intros H. apply (proj1 (read_fuel_post fuel)) in H. simpl in H.
  destruct H as (used & -> & Hne & _). rewrite length_app.
  destruct used; [congruence|simpl; lia].
Qed.

(** [read] never runs out of the fuel it is given. *)
Lemma read_fuel_total fuel :
  (forall tokens, (1 <= fuel)%nat -> (2 * List.length tokens <= fuel)%nat ->
     exists r, read_fuel maxint fuel tokens = Some r) /\
  (forall parsed tokens, (2 * List.length tokens + 1 <= fuel)%nat ->
     exists r, read_loop maxint fuel parsed tokens = Some r).
Proof.
  induction fuel as [|fuel [IHr IHl]]; split.
  - intros; lia.
  - intros; lia.
  - intros tokens _ Hlen. simpl. destruct tokens as [|t ts]; [eexists; reflexivity|].
    destruct (String.eqb t "(").
    + apply IHl. simpl in Hlen. lia.
    + destruct (String.eqb t ")"); eexists; reflexivity.
  - intros parsed tokens Hlen. simpl. destruct tokens as [|t ts]; [eexists; reflexivity|].
    destruct (negb (String.eqb t ")")); [|eexists; reflexivity].
    destruct (IHr (t :: ts)) as [r Hr]; [simpl in Hlen; lia|simpl in *; lia|].
    rewrite Hr. destruct r as [[e ts1]|err]; [|eexists; reflexivity].
    apply IHl. apply read_fuel_shorter in Hr. simpl in *. lia.
Qed.

Lemma read_total tokens : exists r, read maxint tokens = Some r.
Proof.
  unfold read, read_budget. apply (proj1 (read_fuel_total _)); lia.
Qed.

Lemma read_post_holds tokens r : read maxint tokens = Some r -> read_post tokens r.
Proof. apply (proj1 (read_fuel_post _)). Qed.

End ReaderFacts.

(** C4. [read] always returns. It fails with [UnexpectedRightParen] exactly
    when the first token is a closing parenthesis, and with
    [UnexpectedEndOfInput] exactly when there is no token or the first one
    opens a list that the tokens never close: no prefix of what follows has
    one closing parenthesis more than it has opening ones. When it succeeds,
    the tokens it has consumed hold as many opening as closing
    parentheses. *)
Theorem read_errors_exact (maxint : Z) (tokens : list string) :
  (exists r, read maxint tokens = Some r) /\
  (forall inner,
     closes 0 inner = true <->
     exists used rest,
       inner = (used ++ rest)%list /\
       count_token ")" used = S (count_token "(" used)) /\
  (read maxint tokens = Some (Raise UnexpectedRightParen) <->
     exists rest, tokens = ")" :: rest) /\
  (read maxint tokens = Some (Raise UnexpectedEndOfInput) <->
     tokens = [] \/ exists inner, tokens = "(" :: inner /\ closes 0 inner = false) /\
  (forall e rest, read maxint tokens = Some (Ok (e, rest)) ->
     exists used,
       tokens = (used ++ rest)%list /\
       count_token "(" used = count_token ")" used).
Proof.
  split; [apply read_total|].
  split; [intros inner; rewrite closes_prefix;
          setoid_rewrite Nat.add_1_r; reflexivity|].
  split; [|split].
  - split.
    + intros H. apply read_post_holds in H. exact H.
    + intros [rest ->]. reflexivity.
  - split.
    + intros H. apply read_post_holds in H. simpl in H.
      destruct H as [H|(inner & -> & H)]; [left; exact H|].
      right. exists inner. split; [reflexivity|apply H].
    + intros [->|(inner & -> & Hopen)]; [reflexivity|].
      destruct (read_total maxint ("(" :: inner)) as [r Hr].
      rewrite Hr. pose proof (read_post_holds _ _ _ Hr) as Hp.
      destruct r as [[e rest]|err]; simpl in Hp.
      * destruct Hp as (used & _ & _ & _ & _ & Hin).
        rewrite (Hin inner eq_refl) in Hopen. discriminate.
      * destruct err; try contradiction; [reflexivity|].
        destruct Hp as [rest Hp]. discriminate.
  - intros e rest H. apply read_post_holds in H. simpl in H.
    destruct H as (used & Hu & _ & Hc & _). exists used. split; assumption.
Qed.

(** * Numerals *)

Lemma minus_split_cases (t : string) :
  (exists r, t = String "-" r /\ minus_split t = Some r) \/
  (minus_split t = None /\ forall r, t <> String "-" r).
Proof.
  destruct t as [|c r]; [right; split; [reflexivity|discriminate]|].
  destruct (Ascii.eqb_spec c "-") as [->|Hc].
  - left. exists r. split; reflexivity.
  - right. split; [|congruence].
    destruct c as [[] [] [] [] [] [] [] []]; try reflexivity. congruence.
Qed.

Lemma is_digit_cases (c : ascii) :
  is_digit c = true ->
  In c ["0"; "1"; "2"; "3"; "4"; "5"; "6"; "7"; "8"; "9"]%char.
Proof.
  destruct c as [[] [] [] [] [] [] [] []]; simpl; intros H;
    try discriminate H; tauto.
Qed.

(** Reading the digits left to right gives what their places add up to. *)
Lemma digits_acc_positional (s : string) : forall acc,
  all_digits s = true ->
  digits_acc acc s = acc * 10 ^ Z.of_nat (String.length s) + positional s.
Proof.
  induction s as [|c r IH]; intros acc H.
  - simpl. lia.
  - simpl in H. apply andb_true_iff in H. destruct H as [Hc Hr].
    cbn [digits_acc positional String.length]. rewrite Hc, (IH _ Hr).
    rewrite Nat2Z.inj_succ, Z.pow_succ_r by lia. ring.
Qed.

Lemma digits1_all_digits (s : string) : digits1 s = true -> all_digits s = true.
Proof. destruct s; [discriminate|intros H; exact H]. Qed.

(** On a numeral, [int] gives the number the numeral denotes. *)
Lemma int_value_denoted (t : string) :
  integer_token t = true -> int_value t = denoted t.
Proof.
  unfold integer_token, int_value, denoted.
  destruct (minus_split t) as [r|]; intros H; apply digits1_all_digits in H;
    rewrite (digits_acc_positional _ 0 H); lia.
Qed.

Lemma all_digits_after (s : string) :
  all_digits s = true -> after_digits s = EmptyString.
Proof.
  induction s as [|c r IH]; [reflexivity|]. simpl.
  intros H. apply andb_true_iff in H. destruct H as [-> Hr]. exact (IH Hr).
Qed.

Lemma digits1_match (s : string) : digits1 s = true -> match_digits_dollar s = true.
Proof.
  destruct s as [|c r]; [discriminate|]. simpl. intros H.
  apply andb_true_iff in H. destruct H as [-> Hr].
  rewrite (all_digits_after _ Hr). reflexivity.
Qed.

(** [REGEX_INTEGER] accepts every numeral. *)
Lemma integer_token_match (t : string) :
  integer_token t = true -> REGEX_INTEGER_match t = true.
Proof.
  unfold integer_token, REGEX_INTEGER_match.
  destruct (minus_split t); apply digits1_match.
Qed.

(** On a string free of white space, [$] is the end of the string. *)
Lemma plain_after_digits (s : string) :
  plain_chars s = true -> at_dollar (after_digits s) = all_digits s.
Proof.
  induction s as [|c r IH]; [reflexivity|]. simpl. intros H.
  apply andb_true_iff in H. destruct H as [H Hr].
  apply andb_true_iff in H. destruct H as [H _].
  apply andb_true_iff in H. destruct H as [Hs _].
  destruct (is_digit c); [exact (IH Hr)|].
  destruct c as [[] [] [] [] [] [] [] []]; try reflexivity. discriminate Hs.
Qed.

Lemma plain_match (s : string) :
  plain_chars s = true -> match_digits_dollar s = digits1 s.
Proof.
  destruct s as [|c r]; [reflexivity|]. intros H. simpl.
  f_equal. apply plain_after_digits. simpl in H.
  apply andb_true_iff in H. apply H.
Qed.

Lemma plain_chars_tail (c : ascii) (r : string) :
  plain_chars (String c r) = true -> plain_chars r = true.
Proof. simpl. intros H. apply andb_true_iff in H. apply H. Qed.

(** On a token, [REGEX_INTEGER] accepts the numerals only. *)
Lemma plain_token_match (t : string) :
  plain_token t = true -> REGEX_INTEGER_match t = integer_token t.
Proof.
  intros H. unfold REGEX_INTEGER_match, integer_token.
  assert (Hp : plain_chars t = true) by (destruct t; [discriminate|exact H]).
  destruct (minus_split_cases t) as [(r & -> & ->)|[-> _]].
  - apply plain_match. exact (plain_chars_tail _ _ Hp).
  - apply plain_match. exact Hp.
Qed.

(** A token that is not a parenthesis is read as an atom. *)
Lemma read_atom (maxint : Z) (t : string) :
  String.eqb t "(" = false -> String.eqb t ")" = false ->
  read maxint [t] = Some (Ok (atom maxint t, [])).
Proof.
  intros Ho Hc. unfold read. simpl. rewrite Ho, Hc. reflexivity.
Qed.

Lemma plain_token_not_paren (t : string) :
  plain_token t = true -> String.eqb t "(" = false /\ String.eqb t ")" = false.
Proof.
  intros H. destruct t as [|c r]; [discriminate|]. simpl in H.
  apply andb_true_iff in H. destruct H as [H _].
  apply andb_true_iff in H. destruct H as [H Hc].
  apply andb_true_iff in H. destruct H as [_ Ho].
  apply negb_true_iff in Ho, Hc. simpl. split.
  - cbn [String.eqb]. rewrite Ho. reflexivity.
  - cbn [String.eqb]. rewrite Hc. reflexivity.
Qed.

Lemma integer_token_plain (t : string) :
  integer_token t = true -> plain_token t = true.
Proof.
  assert (Hd : forall s, all_digits s = true -> plain_chars s = true).
  { induction s as [|c r IH]; [reflexivity|]. simpl. intros H.
    apply andb_true_iff in H. destruct H as [Hc Hr]. rewrite (IH Hr).
    apply is_digit_cases in Hc. simpl in Hc.
    repeat (destruct Hc as [<-|Hc]; [reflexivity|]). contradiction. }
  unfold integer_token.
  destruct (minus_split_cases t) as [(r & -> & ->)|[-> _]]; intros H.
  - apply digits1_all_digits in H. simpl. exact (Hd _ H).
  - destruct t as [|c r]; [discriminate|]. exact (Hd _ H).
Qed.

(** ** The numeral [str] writes *)

(** The library's reading of a decimal agrees with the host's. *)
Lemma of_uint_acc_digits (s : string) : forall d acc,
  NilEmpty.uint_of_string s = Some d ->
  Zpos (Pos.of_uint_acc d acc) = digits_acc (Zpos acc) s.
Proof.
  induction s as [|c r IH]; intros d acc H; simpl in H.
  - injection H as <-. reflexivity.
  - destruct (NilEmpty.uint_of_string r) as [d'|]; [|discriminate H].
    digit_cases H; cbn [Pos.of_uint_acc digits_acc is_digit];
      rewrite (IH _ _ eq_refl); f_equal; digit_value_compute;
      rewrite ?Pos2Z.inj_add, ?Pos2Z.inj_mul; lia.
Qed.

Lemma of_uint_digits (s : string) : forall d,
  NilEmpty.uint_of_string s = Some d ->
  Z.of_uint d = digits_acc 0 s.
Proof.
  unfold Z.of_uint.
  induction s as [|c r IH]; intros d H; simpl in H.
  - injection H as <-. reflexivity.
  - destruct (NilEmpty.uint_of_string r) as [d'|] eqn:E; [|discriminate H].
    digit_cases H; cbn [Pos.of_uint digits_acc is_digit Z.of_N];
      try (rewrite (of_uint_acc_digits _ _ _ E); f_equal; reflexivity).
    rewrite (IH _ eq_refl). reflexivity.
Qed.

Lemma all_digits_uint (s : string) :
  all_digits s = true -> exists d, NilEmpty.uint_of_string s = Some d.
Proof.
  induction s as [|c r IH]; [eexists; reflexivity|]. simpl. intros H.
  apply andb_true_iff in H. destruct H as [Hc Hr].
  destruct (IH Hr) as [d ->]. apply is_digit_cases in Hc. simpl in Hc.
  repeat (destruct Hc as [<-|Hc]; [eexists; reflexivity|]). contradiction.
Qed.

(** A numeral is a decimal of the library, of the same value. *)
Lemma integer_token_decimal (t : string) :
  integer_token t = true ->
  exists d, NilZero.int_of_string t = Some d /\ Z.of_int d = int_value t.
Proof.
  unfold integer_token, int_value.
  destruct (minus_split_cases t) as [(r & -> & ->)|[-> Hm]]; intros H.
  - destruct r as [|c r]; [discriminate H|].
    destruct (all_digits_uint _ H) as [d Hd].
    exists (Neg d). split.
    + unfold NilZero.int_of_string, NilZero.uint_of_string.
      cbn [Ascii.eqb Bool.eqb]. rewrite Hd. reflexivity.
    + simpl Z.of_int. rewrite (of_uint_digits _ _ Hd). reflexivity.
  - destruct t as [|c r]; [discriminate H|].
    destruct (all_digits_uint _ H) as [d Hd].
    exists (Pos d). split.
    + unfold NilZero.int_of_string, NilZero.uint_of_string.
      destruct (Ascii.eqb_spec c "-") as [->|_]; [exfalso; exact (Hm r eq_refl)|].
      rewrite Hd. reflexivity.
    + simpl Z.of_int. exact (of_uint_digits _ _ Hd).
Qed.

(** A decimal that starts with a digit other than zero is its own normal
    form. *)
Lemma nzhead_starts_nonzero (s : string) (d : uint) :
  NilEmpty.uint_of_string s = Some d -> starts_nonzero s = true ->
  nzhead d = d /\ d <> Nil.
Proof.
  destruct s as [|c r]; [discriminate 2|]. simpl.
  destruct (NilEmpty.uint_of_string r) as [d'|]; [|discriminate 1].
  intros H Hc. digit_cases H; try discriminate Hc; split; try reflexivity; discriminate.
Qed.

Lemma canonical_norm (t : string) (d : Decimal.int) :
  NilZero.int_of_string t = Some d -> canonical t = true -> norm d = d.
Proof.
  unfold canonical.
  destruct (minus_split_cases t) as [(r & -> & ->)|[-> Hm]]; intros H Hc.
  - unfold NilZero.int_of_string, NilZero.uint_of_string in H.
    cbn [Ascii.eqb Bool.eqb] in H. destruct r as [|c r]; [discriminate Hc|].
    destruct (NilEmpty.uint_of_string (String c r)) as [u|] eqn:E; [|discriminate H].
    injection H as <-. destruct (nzhead_starts_nonzero _ _ E Hc) as [Hn Hnil].
    simpl. rewrite Hn. destruct u; [congruence|reflexivity..].
  - destruct t as [|c r]; [discriminate H|].
    unfold NilZero.int_of_string, NilZero.uint_of_string in H.
    destruct (Ascii.eqb_spec c "-") as [->|_]; [exfalso; exact (Hm r eq_refl)|].
    destruct (NilEmpty.uint_of_string (String c r)) as [u|] eqn:E; [|discriminate H].
    injection H as <-. apply orb_true_iff in Hc. destruct Hc as [Hz|Hc].
    + apply String.eqb_eq in Hz. rewrite Hz in E. injection E as <-. reflexivity.
    + destruct (nzhead_starts_nonzero _ _ E Hc) as [Hn Hnil].
      simpl. unfold unorm. rewrite Hn. destruct u; [congruence|reflexivity..].
Qed.

(** [str] gives a canonical numeral back. *)
Lemma str_int_canonical (t : string) :
  integer_token t = true -> canonical t = true -> str_int (int_value t) = t.
Proof.
  intros Ht Hc. destruct (integer_token_decimal t Ht) as (d & Hd & <-).
  unfold str_int. rewrite DecimalZ.to_of, (canonical_norm _ _ Hd Hc).
  exact (NilZero.sis _ _ Hd).
Qed.

Lemma string_of_uint_digits (u : uint) :
  all_digits (NilEmpty.string_of_uint u) = true.
Proof. induction u; simpl; auto. Qed.

Lemma string_of_uint_digits1 (u : uint) :
  digits1 (NilZero.string_of_uint u) = true.
Proof.
  destruct u; try reflexivity;
    exact (string_of_uint_digits (_ u)).
Qed.

Lemma digits1_no_minus (s : string) : digits1 s = true -> minus_split s = None.
Proof.
  intros H. destruct (minus_split_cases s) as [(r & -> & _)|[H' _]]; [|exact H'].
  discriminate H.
Qed.

Lemma to_int_normal (n : Z) : norm (Z.to_int n) = Z.to_int n.
Proof. rewrite <- (DecimalZ.of_to n) at 2. symmetry. apply DecimalZ.to_of. Qed.

(** A decimal in normal form has no zero in front, unless it is zero. *)
Lemma unorm_fixed (u : uint) :
  unorm u = u -> u = D0 Nil \/ starts_nonzero (NilEmpty.string_of_uint u) = true.
Proof.
  destruct u; intros H; try (right; reflexivity).
  - discriminate H.
  - left. rewrite unorm_D0 in H. unfold unorm in H.
    destruct (nzhead u) eqn:E; try (exfalso; exact (nzhead_nonzero _ _ (eq_trans E H))).
    injection H as <-. reflexivity.
Qed.

Lemma nzhead_fixed (u : uint) :
  nzhead u = u -> u <> Nil -> starts_nonzero (NilEmpty.string_of_uint u) = true.
Proof.
  destruct u; intros H Hn; try reflexivity.
  - congruence.
  - exfalso. exact (nzhead_nonzero _ _ H).
Qed.

(** What [str] writes is a numeral, is canonical, and denotes the number. *)
Lemma str_int_numeral (n : Z) :
  integer_token (str_int n) = true /\
  canonical (str_int n) = true /\
  int_value (str_int n) = n.
Proof.
  unfold str_int. pose proof (to_int_normal n) as Hn.
  pose proof (DecimalZ.of_to n) as Hof.
  assert (Htok : integer_token (NilZero.string_of_int (Z.to_int n)) = true).
  { unfold integer_token. destruct (Z.to_int n) as [u|u]; simpl.
    - rewrite (digits1_no_minus _ (string_of_uint_digits1 u)).
      apply string_of_uint_digits1.
    - apply string_of_uint_digits1. }
  split; [exact Htok|]. split.
  - unfold canonical. destruct (Z.to_int n) as [u|u]; simpl in *.
    + rewrite (digits1_no_minus _ (string_of_uint_digits1 u)).
      injection Hn as Hn. destruct (unorm_fixed u Hn) as [->|Hs]; [reflexivity|].
      destruct u; try discriminate Hs; simpl; rewrite ?orb_true_r; reflexivity.
    + destruct (nzhead u) eqn:E; try discriminate Hn;
        injection Hn as Hn; rewrite <- Hn in E;
        (destruct u; try discriminate Hn; try reflexivity;
         exfalso; exact (nzhead_nonzero _ _ E)).
  - destruct (integer_token_decimal _ Htok) as (d & Hd & <-).
    rewrite NilZero.isi in Hd.
    + injection Hd as <-. exact Hof.
    + intros E. rewrite E in Hn. discriminate Hn.
    + intros E. rewrite E in Hn. discriminate Hn.
Qed.

(** C8, as amended. A token that is an optional minus followed by digits is
    read as the number it denotes, an [int] when the number fits one. Writing
    that number gives the token back exactly when the token is canonical: no
    zero in front, no minus before zero. In general it gives a canonical
    numeral of the same number. A token of any other shape, not a
    parenthesis, is read as the symbol of that very text. *)
Theorem atom_classifies_tokens (maxint : Z) (t : string) :
  (integer_token t = true ->
     read maxint [t] = Some (Ok (atom maxint t, [])) /\
     number_of (atom maxint t) = Some (denoted t) /\
     (fits_int maxint (denoted t) = true -> atom maxint t = EInt (denoted t)) /\
     (canonical t = true <-> str_int (denoted t) = t) /\
     integer_token (str_int (denoted t)) = true /\
     denoted (str_int (denoted t)) = denoted t) /\
  (plain_token t = true -> integer_token t = false ->
     read maxint [t] = Some (Ok (ESym t, []))).
Proof.
  split.
  - intros Ht.
    destruct (plain_token_not_paren _ (integer_token_plain _ Ht)) as [Ho Hc].
    pose proof (int_value_denoted _ Ht) as Hv.
    destruct (str_int_numeral (denoted t)) as (Hs1 & Hs2 & Hs3).
    assert (Ha : atom maxint t = if fits_int maxint (denoted t)
                                 then EInt (denoted t) else ELong (denoted t)).
    { unfold atom, int_. rewrite (integer_token_match _ Ht), Hv. reflexivity. }
    split; [exact (read_atom maxint t Ho Hc)|].
    split; [rewrite Ha; destruct (fits_int maxint (denoted t)); reflexivity|].
    split; [intros Hf; rewrite Ha, Hf; reflexivity|].
    split; [|split].
    + split.
      * intros Hcan. rewrite <- Hv. exact (str_int_canonical t Ht Hcan).
      * intros <-. exact Hs2.
    + exact Hs1.
    + rewrite <- (int_value_denoted _ Hs1). exact Hs3.
  - intros Hp Hn. destruct (plain_token_not_paren _ Hp) as [Ho Hc].
    rewrite (read_atom maxint t Ho Hc). unfold atom.
    rewrite (plain_token_match _ Hp), Hn. reflexivity.
Qed.

(** C8, as it is stated, fails on [007]: it is read as 7, which is written
    [7]. *)
Lemma leading_zeros_not_written_back :
  integer_token "007" = true /\
  read maxint64 ["007"] = Some (Ok (EInt 7, [])) /\
  str_int 7 = "7" /\
  str_int 7 <> "007".
Proof.
  split; [reflexivity|]. split; [reflexivity|]. split; [reflexivity|discriminate].
Qed.

(** * The evaluator *)

Section EvaluatorFacts.

Variable host_cmp : value -> value -> comparison.

#[local] Abbreviation eval := (evaluate host_cmp).

(** The rule for a list, one step unfolded. *)
Lemma evaluate_list head args out :
  eval (EList (head :: args)) out =
  match find_command head with
  | Raise e => (Raise e, out)
  | Ok (Some command) =>
      match check_args command args with
      | Raise e => (Raise e, out)
      | Ok _ => call eval command args out
      end
  | Ok None =>
      match evaluate_each eval (head :: args) out with
      | (Ok exps, out') => (apply_values host_cmp exps, out')
      | (Raise e, out') => (Raise e, out')
      end
  end.
Proof.
  simpl. unfold bind, lift.
  destruct (find_command head) as [[command|]|e]; try reflexivity.
  destruct (eval head out) as [[v|e] out1]; try reflexivity.
  destruct (evaluate_each eval args out1) as [[vs|e] out2]; try reflexivity.
  unfold ret. destruct v as [n|o]; try reflexivity.
  destruct vs as [|a [|b [|c vs]]]; reflexivity.
Qed.

Lemma evaluate_each_cons exp rest out :
  evaluate_each eval (exp :: rest) out =
  match eval exp out with
  | (Ok v, out1) =>
      match evaluate_each eval rest out1 with
      | (Ok vs, out2) => (Ok (v :: vs), out2)
      | (Raise e, out2) => (Raise e, out2)
      end
  | (Raise e, out1) => (Raise e, out1)
  end.
Proof.
  simpl. unfold bind. destruct (eval exp out) as [[v|e] out1]; try reflexivity.
Qed.

(** Every element has a value when the comprehension has one. *)
Lemma evaluate_each_length items : forall out exps out',
  evaluate_each eval items out = (Ok exps, out') ->
  List.length exps = List.length items.
Proof.
  induction items as [|x items IH]; intros out exps out' H.
  - injection H as <- _. reflexivity.
  - rewrite evaluate_each_cons in H.
    destruct (eval x out) as [[v|e] out1]; try discriminate.
    destruct (evaluate_each eval items out1) as [[vs|e] out2] eqn:E; try discriminate.
    injection H as <- _. simpl. f_equal. exact (IH _ _ _ E).
Qed.

Lemma find_command_plain head :
  is_list head = false -> names_special_form head = false ->
  find_command head = Ok None.
Proof.
  intros Hl H. destruct head as [n|n|name|items]; try reflexivity; try discriminate Hl.
  unfold names_special_form in H.
  apply orb_false_elim in H. destruct H as [H Hb].
  apply orb_false_elim in H. destruct H as [Hi Hp].
  rewrite String.eqb_sym in Hi. rewrite String.eqb_sym in Hp.
  rewrite String.eqb_sym in Hb.
  unfold find_command, commands, dict_get. rewrite Hi, Hp, Hb. reflexivity.
Qed.

Lemma find_command_named name function :
  dict_get commands name = Some function ->
  find_command (ESym name) = Ok (Some function).
Proof. intros H. unfold find_command. rewrite H. reflexivity. Qed.

(** The arity test of [check_args] is the declared shape of the form. *)
Lemma check_args_declared function args :
  check_args function args =
  let (lo, hi) := declared_arity function in
  if (List.length args <? lo)%nat then Raise MissingArguments
  else match hi with
       | Some h => if (h <? List.length args)%nat then Raise TooManyArguments else Ok tt
       | None => Ok tt
       end.
Proof.
  unfold check_args.
  destruct function; simpl;
    repeat (destruct args as [|? args]; simpl; try reflexivity).
Qed.

(** The rule for a special form. *)
Lemma evaluate_command name function args out :
  dict_get commands name = Some function ->
  eval (EList (ESym name :: args)) out =
  match check_args function args with
  | Raise e => (Raise e, out)
  | Ok _ => call eval function args out
  end.
Proof.
  intros H. rewrite evaluate_list, (find_command_named _ _ H). reflexivity.
Qed.

(** The rule for an application. *)
Lemma evaluate_application head args out :
  is_list head = false -> names_special_form head = false ->
  eval (EList (head :: args)) out =
  match evaluate_each eval (head :: args) out with
  | (Ok exps, out') => (apply_values host_cmp exps, out')
  | (Raise e, out') => (Raise e, out')
  end.
Proof.
  intros Hl Hn. rewrite evaluate_list, (find_command_plain _ Hl Hn). reflexivity.
Qed.

Lemma evaluate_operator_symbol name o out :
  dict_get operators name = Some o -> eval (ESym name) out = (Ok (VOp o), out).
Proof. intros H. simpl. rewrite H. reflexivity. Qed.

(** An exception raised by the first expression a form evaluates leaves the
    form as it is: no rule of [evaluate] handles one. *)
Lemma raise_propagates x e out out' :
  eval x out = (Raise e, out') ->
  eval (EList [ESym "print"; x]) out = (Raise e, out') /\
  (forall rest, eval (EList (ESym "begin" :: x :: rest)) out = (Raise e, out')) /\
  (forall conseq alt, eval (EList [ESym "if"; x; conseq; alt]) out = (Raise e, out')) /\
  (forall name o rest, dict_get operators name = Some o ->
     dict_get commands name = None ->
     eval (EList (ESym name :: x :: rest)) out = (Raise e, out')).
Proof.
  intros H. repeat split.
  - rewrite (evaluate_command "print" cmd_print) by reflexivity.
    run_check. unfold call, print_cmd, bind. rewrite H. reflexivity.
  - intros rest. rewrite (evaluate_command "begin" cmd_begin) by reflexivity.
    run_check. unfold call, begin_cmd, bind. rewrite H. reflexivity.
  - intros conseq alt. rewrite (evaluate_command "if" cmd_if) by reflexivity.
    run_check. unfold call, if_cmd, bind. rewrite H. reflexivity.
  - intros name o rest Ho Hc. rewrite evaluate_list.
    unfold find_command. rewrite Hc. rewrite evaluate_each_cons.
    rewrite (evaluate_operator_symbol _ _ _ Ho). cbv beta iota.
    rewrite evaluate_each_cons, H. reflexivity.
Qed.

End EvaluatorFacts.

(** * The claims about the evaluator *)

(** C9. A list whose first element is a list fails at the membership test
    [expression[0] in commands] with the host's [TypeError]: nothing has been
    evaluated, the sink is as it was, the error is none of the interpreter's
    and the loop does not catch it. *)
Theorem list_head_raises_TypeError
  (host_cmp : value -> value -> comparison)
  (items rest : list expr) (out : sink) :
  find_command (EList items) = Raise TypeError /\
  evaluate host_cmp (EList (EList items :: rest)) out = (Raise TypeError, out) /\
  is_InterpreterError TypeError = false /\
  repl_try host_cmp (Some out) (Ok (EList (EList items :: rest)))
    = (Raise TypeError, Some out) /\
  repl_except (Raise TypeError) = Uncaught TypeError.
Proof.
  split; [reflexivity|].
  assert (H : evaluate host_cmp (EList (EList items :: rest)) out = (Raise TypeError, out))
    by (rewrite evaluate_list; reflexivity).
  split; [exact H|]. split; [reflexivity|]. split; [|reflexivity].
  unfold repl_try. rewrite H. reflexivity.
Qed.

(** C6. A symbol is looked up in [operators] and nowhere else: one of the
    seven keys gives its operator, any other name fails with
    [InvalidOperator] carrying the name. The names of the special forms are
    such other names. A list headed by a name that is neither an operator nor
    a special form fails in the same way, whatever follows the head. *)
Theorem symbol_lookup
  (host_cmp : value -> value -> comparison) (name : string) (out : sink) :
  (forall o, dict_get operators name = Some o ->
     evaluate host_cmp (ESym name) out = (Ok (VOp o), out)) /\
  (dict_get operators name = None ->
     evaluate host_cmp (ESym name) out = (Raise (InvalidOperator (PName name)), out)) /\
  (dict_get operators name = None <->
     ~ In name ["+"; "-"; "*"; "/"; "="; "<"; ">"]) /\
  (forall function, dict_get commands name = Some function ->
     evaluate host_cmp (ESym name) out = (Raise (InvalidOperator (PName name)), out)) /\
  (forall args, dict_get operators name = None -> dict_get commands name = None ->
     evaluate host_cmp (EList (ESym name :: args)) out
       = (Raise (InvalidOperator (PName name)), out)) /\
  evaluate host_cmp (EList [ESym "foo"; EInt 1; EInt 2]) out
    = (Raise (InvalidOperator (PName "foo")), out).
Proof.
  assert (Hmiss : dict_get operators name = None ->
     evaluate host_cmp (ESym name) out = (Raise (InvalidOperator (PName name)), out)).
  { intros H. simpl. rewrite H. reflexivity. }
  assert (Hhead : forall args, dict_get operators name = None ->
     dict_get commands name = None ->
     evaluate host_cmp (EList (ESym name :: args)) out
       = (Raise (InvalidOperator (PName name)), out)).
  { intros args Ho Hc. rewrite evaluate_list. unfold find_command. rewrite Hc.
    rewrite evaluate_each_cons, (Hmiss Ho). reflexivity. }
  split; [intros o H; apply evaluate_operator_symbol; exact H|].
  split; [exact Hmiss|]. split; [|split; [|split]].
  - unfold operators, dict_get. split.
    + intros H [Hin|[Hin|[Hin|[Hin|[Hin|[Hin|[Hin|[]]]]]]]]; subst name; discriminate H.
    + intros H.
      repeat match goal with
      | |- context [String.eqb ?k name] =>
          destruct (String.eqb_spec k name) as [E|_];
          [exfalso; apply H; rewrite <- E; simpl; tauto|]
      end.
      reflexivity.
  - intros function H. apply Hmiss.
    unfold commands, dict_get in H. unfold operators, dict_get.
    repeat match type of H with
    | context [String.eqb ?k name] =>
        destruct (String.eqb_spec k name) as [E|_]; [subst name; reflexivity|]
    end.
    discriminate H.
  - exact Hhead.
  - rewrite evaluate_list. reflexivity.
Qed.

(** C3. For a list whose head names a special form the number of arguments
    is tested against the declared shape of the form before its handler
    runs: fewer than the least raise [MissingArguments], more than the
    greatest raise [TooManyArguments], and in both cases the sink is as it
    was, whatever the arguments are; otherwise the handler is called. So
    [(begin)] raises [MissingArguments]. *)
Theorem special_form_arity_checked_first
  (host_cmp : value -> value -> comparison)
  (name : string) (function : command) (args : list expr) (out : sink) :
  dict_get commands name = Some function ->
  declared_arity function =
    match function with
    | cmd_if => (3%nat, Some 3%nat)
    | cmd_print => (1%nat, Some 1%nat)
    | cmd_begin => (1%nat, None)
    end /\
  ((List.length args < fst (declared_arity function))%nat ->
     evaluate host_cmp (EList (ESym name :: args)) out = (Raise MissingArguments, out)) /\
  (forall most, snd (declared_arity function) = Some most ->
     (most < List.length args)%nat ->
     evaluate host_cmp (EList (ESym name :: args)) out = (Raise TooManyArguments, out)) /\
  ((fst (declared_arity function) <= List.length args)%nat ->
   (forall most, snd (declared_arity function) = Some most ->
      (List.length args <= most)%nat) ->
     evaluate host_cmp (EList (ESym name :: args)) out
       = call (evaluate host_cmp) function args out) /\
  evaluate host_cmp (EList [ESym "begin"]) out = (Raise MissingArguments, out).
Proof.
  intros Hname. split; [reflexivity|].
  pose proof (evaluate_command host_cmp name function args out Hname) as E.
  rewrite check_args_declared in E.
  destruct (declared_arity function) as [least greatest] eqn:Hd. simpl fst. simpl snd.
  split; [|split; [|split]].
  - intros Hlt. apply Nat.ltb_lt in Hlt. rewrite Hlt in E. exact E.
  - intros most -> Hgt.
    destruct (List.length args <? least)%nat eqn:Hl.
    + exfalso. clear E. apply Nat.ltb_lt in Hl.
      destruct function; simpl in Hd; inversion Hd; subst; lia.
    + apply Nat.ltb_lt in Hgt. rewrite Hgt in E. exact E.
  - intros Hge Hle.
    assert (Hl : (List.length args <? least)%nat = false) by (apply Nat.ltb_ge; exact Hge).
    rewrite Hl in E. destruct greatest as [most|]; [|exact E].
    assert (Hm : (most <? List.length args)%nat = false)
      by (apply Nat.ltb_ge; apply Hle; reflexivity).
    rewrite Hm in E. exact E.
  - rewrite (evaluate_command host_cmp "begin" cmd_begin) by reflexivity. reflexivity.
Qed.

(** At [(if (print 1))]: one argument where three are declared, and the
    [print] is not run. *)
Lemma special_form_arity_checked_first_witness :
  dict_get commands "if" = Some cmd_if /\
  evaluate cmp_unused (EList [ESym "if"; EList [ESym "print"; EInt 1]]) []
    = (Raise MissingArguments, []).
Proof.
  split; [reflexivity|].
  destruct (special_form_arity_checked_first cmp_unused "if" cmd_if
              [EList [ESym "print"; EInt 1]] [] eq_refl) as (_ & Hfew & _).
  apply Hfew. simpl. lia.
Defined.

(** The rule for [if], one step unfolded. *)
Lemma evaluate_if
  (host_cmp : value -> value -> comparison) (test conseq alt : expr) (out : sink) :
  evaluate host_cmp (EList [ESym "if"; test; conseq; alt]) out =
  match evaluate host_cmp test out with
  | (Ok t, out1) => evaluate host_cmp (if truth t then conseq else alt) out1
  | (Raise e, out1) => (Raise e, out1)
  end.
Proof.
  rewrite (evaluate_command host_cmp "if" cmd_if) by reflexivity.
  run_check. reflexivity.
Qed.

Lemma truth_nonzero (t : value) : truth t = true <-> t <> VInt 0.
Proof.
  destruct t as [n|o]; simpl.
  - rewrite negb_true_iff, Z.eqb_neq. split; congruence.
  - split; [discriminate|reflexivity].
Qed.

(** C5. [(if test conseq alt)] evaluates [test] first. When that gives a
    value other than zero the outcome is the evaluation of [conseq] in the
    sink [test] left, and [alt] plays no part; when it gives zero the outcome
    is the evaluation of [alt], and [conseq] plays no part. An error of
    [test] is the outcome. A [print] in the branch not taken writes
    nothing. *)
Theorem if_evaluates_one_branch
  (host_cmp : value -> value -> comparison) (test conseq alt : expr) (out : sink) :
  (forall e out1, evaluate host_cmp test out = (Raise e, out1) ->
     evaluate host_cmp (EList [ESym "if"; test; conseq; alt]) out = (Raise e, out1)) /\
  (forall t out1, evaluate host_cmp test out = (Ok t, out1) ->
     (t <> VInt 0 ->
        forall other,
          evaluate host_cmp (EList [ESym "if"; test; conseq; other]) out
            = evaluate host_cmp conseq out1) /\
     (t = VInt 0 ->
        forall other,
          evaluate host_cmp (EList [ESym "if"; test; other; alt]) out
            = evaluate host_cmp alt out1)) /\
  (forall x,
     evaluate host_cmp
       (EList [ESym "if"; EList [ESym ">"; EInt 3; EInt 2]; EInt 1;
               EList [ESym "print"; x]]) out
     = (Ok (VInt 1), out)) /\
  (forall x,
     evaluate host_cmp
       (EList [ESym "if"; EList [ESym ">"; EInt 2; EInt 3];
               EList [ESym "print"; x]; EInt 0]) out
     = (Ok (VInt 0), out)).
Proof.
  split; [|split; [|split]].
  - intros e out1 H. rewrite evaluate_if, H. reflexivity.
  - intros t out1 H. split.
    + intros Ht other. rewrite evaluate_if, H.
      apply truth_nonzero in Ht. rewrite Ht. reflexivity.
    + intros -> other. rewrite evaluate_if, H. reflexivity.
  - intros x. rewrite evaluate_if. reflexivity.
  - intros x. rewrite evaluate_if. reflexivity.
Qed.

(** ** Division *)

(** The host's division of whole numbers is the quotient rounded down. *)
Lemma int_div_floor (x y : Z) : y <> 0 -> int_div x y = x / y.
Proof.
  intros Hy. unfold int_div.
  pose proof (Z.quot_rem' x y) as Hqr.
  pose proof (Z.rem_bound_abs x y Hy) as Hb.
  set (q := Z.quot x y) in *. set (r := Z.rem x y) in *.
  replace (x - q * y) with r by lia.
  destruct (Z.eqb_spec r 0) as [Hr|Hr]; simpl.
  - apply (Z.div_unique x y q 0); lia.
  - destruct (Z.ltb_spec y 0), (Z.ltb_spec r 0); simpl.
    + apply (Z.div_unique x y q r); lia.
    + apply (Z.div_unique x y (q - 1) (r + y)); lia.
    + apply (Z.div_unique x y (q - 1) (r + y)); lia.
    + apply (Z.div_unique x y q r); lia.
Qed.

(** The quotient rounded down lies between the exact quotient less one and
    the exact quotient. *)
Lemma floor_bounds (a b : Z) :
  b <> 0 ->
  (0 < b -> b * (a / b) <= a < b * (a / b + 1)) /\
  (b < 0 -> b * (a / b + 1) < a <= b * (a / b)).
Proof.
  intros Hb. pose proof (Z.div_mod a b Hb) as Hdm. split; intros Hs.
  - pose proof (Z.mod_pos_bound a b Hs). lia.
  - pose proof (Z.mod_neg_bound a b Hs). lia.
Qed.

(** Division of two [int]s. [(/ a b)] with [b] not zero evaluates to the
    exact quotient rounded towards minus infinity: the value [q] is the one
    whole number with [q <= a/b < q + 1]. So [(/ -1 2)] is [-1] and
    [(/ 7 -2)] is [-4]. *)
Theorem division_rounds_down
  (host_cmp : value -> value -> comparison) (a b : Z) (out : sink) :
  b <> 0 ->
  exists q,
    evaluate host_cmp (EList [ESym "/"; EInt a; EInt b]) out = (Ok (VInt q), out) /\
    (0 < b -> b * q <= a < b * (q + 1)) /\
    (b < 0 -> b * (q + 1) < a <= b * q) /\
    q = a / b /\
    evaluate host_cmp (EList [ESym "/"; EInt (-1); EInt 2]) out = (Ok (VInt (-1)), out) /\
    evaluate host_cmp (EList [ESym "/"; EInt 7; EInt (-2)]) out = (Ok (VInt (-4)), out).
Proof.
  intros Hb. exists (a / b).
  destruct (floor_bounds a b Hb) as [Hpos Hneg].
  split; [|repeat split; try (apply Hpos; assumption); try (apply Hneg; assumption)].
  rewrite evaluate_list. simpl.
  unfold bind, lift, ret. simpl.
  apply Z.eqb_neq in Hb. rewrite Hb, int_div_floor by (apply Z.eqb_neq; exact Hb).
  reflexivity.
Qed.

(** At [a = -1], [b = 2]. *)
Lemma division_rounds_down_witness :
  2 <> 0 /\
  exists q,
    evaluate cmp_unused (EList [ESym "/"; EInt (-1); EInt 2]) []
      = (Ok (VInt q), []) /\
    2 * q <= -1 < 2 * (q + 1).
Proof.
  split; [discriminate|].
  destruct (division_rounds_down cmp_unused (-1) 2 [])
    as (q & Hq & Hpos & _); [discriminate|].
  exists q. split; [exact Hq|apply Hpos; reflexivity].
Defined.

(** No key of [operators] is a key of [commands]. *)
Lemma operators_not_commands (name : string) (o : operator) :
  dict_get operators name = Some o -> dict_get commands name = None.
Proof.
  unfold operators, commands, dict_get. intros H.
  repeat match goal with
  | |- context [String.eqb ?k name] =>
      destruct (String.eqb_spec k name) as [E|_]; [subst name; discriminate H|]
  end.
  reflexivity.
Qed.

(** What [repl] catches, by class. *)
Lemma repl_catches_classes (exc : exn) :
  repl_catches exc = true <->
  is_InputError exc = true \/ is_EvaluationError exc = true \/ exc = ZeroDivisionError.
Proof.
  destruct exc; simpl; split; intros H; try reflexivity; try discriminate H;
    try (left; reflexivity); try (right; left; reflexivity);
    try (right; right; reflexivity);
    destruct H as [H|[H|H]]; discriminate H.
Qed.

(** Division of an [int] by zero. [(/ a 0)] raises the host's
    [ZeroDivisionError], which is none of the interpreter's errors. The
    forms around it do not handle it: as the
    argument of [print], the first of [begin], the test of [if] or an operand
    of an operator it is the outcome of the form. The [except] clause of
    [repl] names it beside the interpreter's errors and nothing else, so the
    loop reports it. *)
Theorem division_by_zero_fault
  (host_cmp : value -> value -> comparison) (a : Z) (out : sink) :
  let d := EList [ESym "/"; EInt a; EInt 0] in
  evaluate host_cmp d out = (Raise ZeroDivisionError, out) /\
  is_InterpreterError ZeroDivisionError = false /\
  evaluate host_cmp (EList [ESym "print"; d]) out = (Raise ZeroDivisionError, out) /\
  (forall rest,
     evaluate host_cmp (EList (ESym "begin" :: d :: rest)) out
       = (Raise ZeroDivisionError, out)) /\
  (forall conseq alt,
     evaluate host_cmp (EList [ESym "if"; d; conseq; alt]) out
       = (Raise ZeroDivisionError, out)) /\
  (forall name o rest, dict_get operators name = Some o ->
     evaluate host_cmp (EList (ESym name :: d :: rest)) out
       = (Raise ZeroDivisionError, out)) /\
  repl_try host_cmp (Some out) (Ok d) = (Raise ZeroDivisionError, Some out) /\
  repl_except (Raise ZeroDivisionError) = Reported ZeroDivisionError /\
  (forall exc, repl_catches exc = true <->
     is_InputError exc = true \/ is_EvaluationError exc = true \/
     exc = ZeroDivisionError).
Proof.
  intros d.
  assert (H : evaluate host_cmp d out = (Raise ZeroDivisionError, out))
    by (unfold d; rewrite evaluate_list; reflexivity).
  destruct (raise_propagates host_cmp d _ out out H) as (Hp & Hb & Hi & Ho).
  split; [exact H|]. split; [reflexivity|]. split; [exact Hp|].
  split; [exact Hb|]. split; [exact Hi|].
  split; [intros name o rest Hn; apply (Ho name o rest Hn);
          apply (operators_not_commands _ _ Hn)|].
  split; [unfold repl_try; rewrite H; reflexivity|].
  split; [reflexivity|apply repl_catches_classes].
Qed.

(** The application rule, on the heads that get to it. For a list whose
    head is neither a list nor the name of a special form, every element, the
    head first, is evaluated in
    order. An error of an element is the outcome. Otherwise there is a value
    for each element; when the first is a number the outcome is
    [InvalidOperator] carrying it; when it is an operator, fewer than two
    further values give [MissingArguments], more give [TooManyArguments],
    and two give what the operator makes of them. *)
Theorem application_rule
  (host_cmp : value -> value -> comparison)
  (head : expr) (args : list expr) (out : sink) :
  is_list head = false ->
  names_special_form head = false ->
  (forall e out',
     evaluate_each (evaluate host_cmp) (head :: args) out = (Raise e, out') ->
     evaluate host_cmp (EList (head :: args)) out = (Raise e, out')) /\
  (forall exps out',
     evaluate_each (evaluate host_cmp) (head :: args) out = (Ok exps, out') ->
     exists first rest,
       exps = first :: rest /\ List.length rest = List.length args /\
       (forall n, first = VInt n ->
          evaluate host_cmp (EList (head :: args)) out
            = (Raise (InvalidOperator (PInt n)), out')) /\
       (forall o, first = VOp o ->
          ((List.length rest < 2)%nat ->
             evaluate host_cmp (EList (head :: args)) out
               = (Raise MissingArguments, out')) /\
          ((2 < List.length rest)%nat ->
             evaluate host_cmp (EList (head :: args)) out
               = (Raise TooManyArguments, out')) /\
          (forall arg1 arg2, rest = [arg1; arg2] ->
             evaluate host_cmp (EList (head :: args)) out
               = (apply_operator host_cmp o arg1 arg2, out')))) /\
  evaluate host_cmp (EList [ESym "+"; EInt 1]) out = (Raise MissingArguments, out) /\
  evaluate host_cmp (EList [ESym "+"; EInt 1; EInt 2; EInt 3]) out
    = (Raise TooManyArguments, out) /\
  evaluate host_cmp
    (EList [ESym "+"; EList [ESym "print"; EInt 1]; EList [ESym "print"; EInt 2]]) out
    = (Ok (VInt 3), (out ++ [VInt 1; VInt 2])%list).
Proof.
  intros Hl Hn.
  pose proof (evaluate_application host_cmp head args out Hl Hn) as E.
  split; [|split; [|split; [|split]]].
  - intros e out' H. rewrite H in E. exact E.
  - intros exps out' H. rewrite H in E.
    pose proof (evaluate_each_length host_cmp _ _ _ _ H) as Hlen.
    destruct exps as [|first rest]; [discriminate Hlen|].
    exists first, rest. simpl in Hlen.
    split; [reflexivity|]. split; [lia|]. split.
    + intros n ->. exact E.
    + intros o ->. repeat split.
      * intros Hlt. destruct rest as [|x [|y rest]]; simpl in Hlt; try lia; exact E.
      * intros Hgt. destruct rest as [|x [|y [|z rest]]]; simpl in Hgt; try lia; exact E.
      * intros arg1 arg2 ->. exact E.
  - rewrite evaluate_list. reflexivity.
  - rewrite evaluate_list. reflexivity.
  - rewrite evaluate_list. simpl. unfold bind, lift, ret, write. simpl.
    rewrite <- app_assoc. reflexivity.
Qed.

(** At [(+ 1 2)]. *)
Lemma application_rule_witness :
  is_list (ESym "+") = false /\
  names_special_form (ESym "+") = false /\
  evaluate cmp_unused (EList [ESym "+"; EInt 1; EInt 2]) [] = (Ok (VInt 3), []).
Proof.
  split; [reflexivity|]. split; [reflexivity|].
  destruct (application_rule cmp_unused (ESym "+") [EInt 1; EInt 2] []
              eq_refl eq_refl) as (_ & H & _).
  destruct (H [VOp op_add; VInt 1; VInt 2] [] eq_refl)
    as (first & rest & Heq & _ & _ & Hop).
  injection Heq as <- <-.
  destruct (Hop op_add eq_refl) as (_ & _ & Happ).
  exact (Happ (VInt 1) (VInt 2) eq_refl).
Defined.

(** C2. The application rule does not get hold of [((+ 1 2) 3 4)]: the
    head names no special form and every element has a value, the first of
    which is the number 3, yet the outcome is the host's [TypeError] of the
    membership test and not [InvalidOperator]. *)
Lemma application_rule_fails_on_list_head :
  names_special_form (EList [ESym "+"; EInt 1; EInt 2]) = false /\
  evaluate_each (evaluate cmp_unused)
    [EList [ESym "+"; EInt 1; EInt 2]; EInt 3; EInt 4] []
    = (Ok [VInt 3; VInt 3; VInt 4], []) /\
  evaluate cmp_unused
    (EList [EList [ESym "+"; EInt 1; EInt 2]; EInt 3; EInt 4]) []
    = (Raise TypeError, []) /\
  @Raise value TypeError <> Raise (InvalidOperator (PInt 3)).
Proof.
  split; [reflexivity|]. split; [reflexivity|]. split; [reflexivity|discriminate].
Qed.

(** * [NullExpression] is never raised *)

Section NullExpressionFacts.

Variable host_cmp : value -> value -> comparison.

#[local] Abbreviation eval := (evaluate host_cmp).
#[local] Abbreviation never_null := (never_raises_NullExpression host_cmp).

Lemma apply_operator_not_null o a b :
  apply_operator host_cmp o a b <> Raise NullExpression.
Proof.
  destruct o, a as [x|f], b as [y|g]; simpl; try discriminate.
  destruct (y =? 0); discriminate.
Qed.

Lemma check_args_not_null function args :
  check_args function args <> Raise NullExpression.
Proof.
  unfold check_args.
  destruct (is_None _ && _); [discriminate|].
  destruct (_ <? _)%nat; discriminate.
Qed.

Lemma begin_rest_not_null rest :
  Forall never_null rest ->
  forall v out, fst (begin_rest eval v rest out) <> Raise NullExpression.
Proof.
  induction 1 as [|x rest Hx _ IH]; intros v out; simpl; [discriminate|].
  unfold bind. specialize (Hx out).
  destruct (eval x out) as [[w|e] out1]; [apply IH|exact Hx].
Qed.

Lemma evaluate_each_not_null items :
  Forall never_null items ->
  forall out e out', evaluate_each eval items out = (Raise e, out') ->
  e <> NullExpression.
Proof.
  induction 1 as [|x items Hx _ IH]; intros out e out' H; [discriminate H|].
  rewrite evaluate_each_cons in H. specialize (Hx out).
  destruct (eval x out) as [[v|e1] out1].
  - destruct (evaluate_each eval items out1) as [[vs|e2] out2] eqn:E;
      [discriminate H|].
    injection H as <- _. exact (IH _ _ _ E).
  - injection H as <- _. simpl in Hx. congruence.
Qed.

Lemma call_not_null function args :
  Forall never_null args ->
  forall out, fst (call eval function args out) <> Raise NullExpression.
Proof.
  intros Hargs out.
  destruct function; simpl.
  - destruct args as [|test [|conseq [|alt [|]]]]; try discriminate.
    inversion Hargs as [|? ? Ht Hr]; subst.
    inversion Hr as [|? ? Hc Hr']; subst.
    inversion Hr' as [|? ? Ha _]; subst.
    unfold if_cmd, bind. specialize (Ht out).
    destruct (eval test out) as [[t|e] out1]; [|exact Ht].
    destruct (truth t); [apply Hc|apply Ha].
  - destruct args as [|arg [|]]; try discriminate.
    inversion Hargs as [|? ? Ha _]; subst.
    unfold print_cmd, bind, write, ret. specialize (Ha out).
    destruct (eval arg out) as [[v|e] out1]; [discriminate|exact Ha].
  - destruct args as [|first rest]; [discriminate|].
    inversion Hargs as [|? ? Hf Hr]; subst.
    unfold begin_cmd, bind. specialize (Hf out).
    destruct (eval first out) as [[v|e] out1]; [|exact Hf].
    apply begin_rest_not_null. exact Hr.
Qed.

(** No expression makes [evaluate] raise [NullExpression]: the one place
    that raises it wants an empty list of values, and the empty list does
    not get there. *)
Lemma evaluate_never_NullExpression (e : expr) : never_null e.
Proof.
  induction e as [n|n|name|items IH] using expr_nested_ind; intros out.
  - discriminate.
  - discriminate.
  - simpl. destruct (dict_get operators name); discriminate.
  - destruct items as [|head args]; [discriminate|].
    rewrite evaluate_list.
    destruct (find_command head) as [[function|]|err] eqn:Ef.
    + pose proof (check_args_not_null function args) as Hc.
      destruct (check_args function args) as [[]|err].
      * apply call_not_null. inversion IH; assumption.
      * simpl. congruence.
    + destruct (evaluate_each eval (head :: args) out) as [[exps|err] out'] eqn:E.
      * apply evaluate_each_length in E.
        destruct exps as [|[n|o] rest]; [discriminate E|discriminate|].
        simpl. destruct rest as [|a [|b [|c rest]]]; try discriminate.
        apply apply_operator_not_null.
      * simpl. intros Hn. injection Hn as Hn.
        exact (evaluate_each_not_null _ IH _ _ _ E Hn).
    + destruct head; try discriminate Ef. injection Ef as <-. discriminate.
Qed.

End NullExpressionFacts.

(** C1. The text [()] parses to the empty list. Evaluating the empty list
    fails at the test [expression[0] in commands], with the host's
    [IndexError], which is none of the interpreter's errors and which the
    loop does not catch. The test for an empty application that raises
    [NullExpression] comes after it, and no expression at all gets
    [NullExpression] out of [evaluate]. *)
Theorem empty_list_raises_IndexError
  (maxint : Z) (host_cmp : value -> value -> comparison) (out : sink) :
  parse maxint "()" = Some (Ok (EList [])) /\
  evaluate host_cmp (EList []) out = (Raise IndexError, out) /\
  is_InterpreterError IndexError = false /\
  repl_except (fst (evaluate host_cmp (EList []) out)) = Uncaught IndexError /\
  (forall e out', fst (evaluate host_cmp e out') <> Raise NullExpression).
Proof.
  split; [reflexivity|]. split; [reflexivity|].
  split; [reflexivity|]. split; [reflexivity|].
  intros e out'. apply evaluate_never_NullExpression.
Qed.

(** * Worked examples

    The testable properties of the specification, run from source text on a
    host with 64-bit [int]s; the order of mixed objects plays no part in
    them. *)

Example run_arithmetic :
  run "(+ 1 2)" = Some (Ok (VInt 3), []) /\
  run "(- 5 3)" = Some (Ok (VInt 2), []) /\
  run "(* 2 (+ 1 1))" = Some (Ok (VInt 4), []) /\
  run "(/ 1 0)" = Some (Raise ZeroDivisionError, []).
Proof. repeat split. Qed.

Example run_comparisons :
  run "(= 3 3)" = Some (Ok (VInt 1), []) /\
  run "(< 3 4)" = Some (Ok (VInt 1), []) /\
  run "(> 3 4)" = Some (Ok (VInt 0), []).
Proof. repeat split. Qed.

Example run_begin_prints_in_order :
  run "(begin (print 1) (print 2) 3)" = Some (Ok (VInt 3), [VInt 1; VInt 2]).
Proof. reflexivity. Qed.

Example run_syntax_errors :
  run "" = Some (Raise UnexpectedEndOfInput, []) /\
  run "(+ 1" = Some (Raise UnexpectedEndOfInput, []) /\
  run ")" = Some (Raise UnexpectedRightParen, []).
Proof. repeat split. Qed.

(** A numeral beyond [sys.maxint] is read as a [long], which [evaluate]
    takes for neither a number nor a symbol and fails to index. *)
Example run_long_literal :
  parse maxint64 "9223372036854775808" = Some (Ok (ELong 9223372036854775808)) /\
  run "9223372036854775808" = Some (Raise TypeError, []) /\
  run "9223372036854775807" = Some (Ok (VInt 9223372036854775807), []).
Proof. repeat split. Qed.

(** A turn of the loop: with [output] bound, division by zero is reported
    and the loop goes on; left unbound, as the module leaves it, the name
    [output] fails first, and that is not caught. *)
Example repl_turn_examples :
  repl_turn cmp_unused maxint64 (Some []) "(/ 1 0)"
    = Some (Reported ZeroDivisionError, Some []) /\
  repl_turn cmp_unused maxint64 (Some []) "(+ 1 2)"
    = Some (Printed (VInt 3), Some []) /\
  repl_turn cmp_unused maxint64 None ")"
    = Some (Reported UnexpectedRightParen, None) /\
  repl_turn cmp_unused maxint64 None "(+ 1 2)"
    = Some (Uncaught NameError, None).
Proof. repeat split. Qed.

(** * Further properties of the tokenizer *)

Lemma string_app_assoc (a b c : string) : (a ++ b) ++ c = a ++ (b ++ c).
Proof. induction a as [|x a IH]; simpl; [reflexivity|rewrite IH; reflexivity]. Qed.

Lemma string_app_nil_r (a : string) : a ++ EmptyString = a.
Proof. induction a as [|x a IH]; simpl; [reflexivity|rewrite IH; reflexivity]. Qed.

Lemma replace_app (old : ascii) (new a b : string) :
  replace old new (a ++ b) = replace old new a ++ replace old new b.
Proof.
  induction a as [|x a IH]; simpl; [reflexivity|].
  destruct (Ascii.eqb x old); rewrite IH; [rewrite string_app_assoc|]; reflexivity.
Qed.

(** White space ends the run being read and starts the rest afresh. *)
Lemma split_from_space (c : ascii) (a b : string) : forall run,
  is_space c = true ->
  split_from run (a ++ String c b) = (split_from run a ++ split_from EmptyString b)%list.
Proof.
  induction a as [|x a IH]; intros run Hc; simpl.
  - rewrite Hc. reflexivity.
  - destruct (is_space x).
    + rewrite (IH _ Hc), List.app_assoc. reflexivity.
    + apply IH. exact Hc.
Qed.

Lemma replace_other (old c : ascii) (new : string) (b : string) :
  Ascii.eqb c old = false ->
  replace old new (String c b) = String c (replace old new b).
Proof. intros H. simpl. rewrite H. reflexivity. Qed.

Lemma padded_text_app (a b : string) :
  padded_text (a ++ b) = padded_text a ++ padded_text b.
Proof. unfold padded_text. rewrite !replace_app. reflexivity. Qed.

Lemma padded_text_space (c : ascii) (b : string) :
  is_space c = true -> padded_text (String c b) = String c (padded_text b).
Proof.
  intros H. unfold padded_text.
  assert (Ho : Ascii.eqb c "(" = false)
    by (destruct c as [[] [] [] [] [] [] [] []]; try reflexivity; discriminate H).
  assert (Hc : Ascii.eqb c ")" = false)
    by (destruct c as [[] [] [] [] [] [] [] []]; try reflexivity; discriminate H).
  rewrite (replace_other _ _ _ _ Ho), (replace_other _ _ _ _ Hc). reflexivity.
Qed.

Lemma tokenize_space (a b : string) (c : ascii) :
  is_space c = true -> tokenize (a ++ String c b) = (tokenize a ++ tokenize b)%list.
Proof.
  intros Hc. unfold tokenize, split.
  fold (padded_text a) (padded_text b) (padded_text (a ++ String c b)).
  rewrite padded_text_app, (padded_text_space _ _ Hc).
  apply split_from_space. exact Hc.
Qed.

Lemma tokenize_open (a b : string) :
  tokenize (a ++ String "(" b) = (tokenize a ++ "(" :: tokenize b)%list.
Proof.
  unfold tokenize, split.
  fold (padded_text a) (padded_text b) (padded_text (a ++ String "(" b)).
  rewrite padded_text_app.
  change (padded_text (String "(" b))
    with (String " " (String "(" (String " " (padded_text b)))).
  rewrite split_from_space by reflexivity. reflexivity.
Qed.

Lemma tokenize_close (a b : string) :
  tokenize (a ++ String ")" b) = (tokenize a ++ ")" :: tokenize b)%list.
Proof.
  unfold tokenize, split.
  fold (padded_text a) (padded_text b) (padded_text (a ++ String ")" b)).
  rewrite padded_text_app.
  change (padded_text (String ")" b))
    with (String " " (String ")" (String " " (padded_text b)))).
  rewrite split_from_space by reflexivity. reflexivity.
Qed.

(** X1. White space only separates, and a parenthesis separates too and is
    a token of its own: the tokens of a text are those of what stands before
    a white-space character followed by those of what stands after it, and
    likewise around a parenthesis, with the parenthesis between them. *)
Theorem tokenize_splits (a b : string) :
  (forall c, is_space c = true ->
     tokenize (a ++ String c b) = (tokenize a ++ tokenize b)%list) /\
  tokenize (a ++ String "(" b) = (tokenize a ++ "(" :: tokenize b)%list /\
  tokenize (a ++ String ")" b) = (tokenize a ++ ")" :: tokenize b)%list.
Proof.
  split; [intros c Hc; apply tokenize_space; exact Hc|].
  split; [apply tokenize_open|apply tokenize_close].
Qed.

Lemma glued_app (a b : list string) : glued (a ++ b) = glued a ++ glued b.
Proof.
  induction a as [|t a IH]; simpl; [reflexivity|].
  rewrite IH, string_app_assoc. reflexivity.
Qed.

Lemma glued_flush (run : string) : glued (flush run) = run.
Proof. destruct run; simpl; [reflexivity|rewrite string_app_nil_r; reflexivity]. Qed.

Lemma glued_split_from (s : string) : forall run,
  glued (split_from run s) = run ++ without_spaces s.
Proof.
  induction s as [|c r IH]; intros run; simpl.
  - rewrite glued_flush, string_app_nil_r. reflexivity.
  - destruct (is_space c).
    + rewrite glued_app, glued_flush, IH. reflexivity.
    + rewrite IH, string_app_assoc. reflexivity.
Qed.

Lemma without_spaces_padded (s : string) :
  without_spaces (padded_text s) = without_spaces s.
Proof.
  unfold padded_text.
  assert (H : forall old s0, is_space old = false ->
            without_spaces (replace old (String " " (String old " ")) s0)
            = without_spaces s0).
  { intros old s0 Hold. induction s0 as [|c r IH]; simpl; [reflexivity|].
    destruct (Ascii.eqb_spec c old) as [->|_]; simpl.
    - rewrite Hold, IH. reflexivity.
    - destruct (is_space c); rewrite IH; reflexivity. }
  rewrite (H ")"%char) by reflexivity. apply (H "("%char). reflexivity.
Qed.

Lemma without_spaces_blank (s : string) :
  without_spaces s = EmptyString <-> is_blank s = true.
Proof.
  induction s as [|c r IH]; simpl; [tauto|].
  destruct (is_space c); simpl; [exact IH|]. split; discriminate.
Qed.

(** X2. Tokenizing loses the white space and nothing else: the tokens, one
    after the other, are the text with its white space taken out. So a text
    has no token exactly when it is blank. *)
Theorem tokenize_keeps_text (s : string) :
  glued (tokenize s) = without_spaces s /\
  (tokenize s = [] <-> is_blank s = true).
Proof.
  assert (H : glued (tokenize s) = without_spaces s).
  { unfold tokenize, split. fold (padded_text s).
    rewrite glued_split_from. apply without_spaces_padded. }
  split; [exact H|]. rewrite <- without_spaces_blank, <- H. split.
  - intros ->. reflexivity.
  - intros Hg. pose proof (tokenize_shape s) as Hs.
    destruct (tokenize s) as [|t ts]; [reflexivity|]. exfalso.
    inversion Hs as [|? ? Ht _]; subst. simpl in Hg.
    destruct t as [|c r]; [|simpl in Hg; discriminate Hg].
    destruct Ht as [Ht|[Ht|Ht]]; simpl in Ht; discriminate Ht.
Qed.

Lemma plain_chars_padded (s : string) : plain_chars s = true -> padded_text s = s.
Proof.
  unfold padded_text. intros H.
  assert (Ho : replace "(" " ( " s = s).
  { induction s as [|c r IH]; simpl; [reflexivity|]. simpl in H.
    apply andb_true_iff in H. destruct H as [H Hr].
    apply andb_true_iff in H. destruct H as [H _].
    apply andb_true_iff in H. destruct H as [_ Ho].
    apply negb_true_iff in Ho. rewrite Ho, (IH Hr). reflexivity. }
  assert (Hc : replace ")" " ) " s = s).
  { clear Ho. induction s as [|c r IH]; simpl; [reflexivity|]. simpl in H.
    apply andb_true_iff in H. destruct H as [H Hr].
    apply andb_true_iff in H. destruct H as [_ Hc].
    apply negb_true_iff in Hc. rewrite Hc, (IH Hr). reflexivity. }
  rewrite Ho. exact Hc.
Qed.

Lemma plain_chars_split_from (s : string) : forall run,
  plain_chars s = true -> split_from run s = flush (run ++ s).
Proof.
  induction s as [|c r IH]; intros run H; simpl.
  - rewrite string_app_nil_r. reflexivity.
  - simpl in H. apply andb_true_iff in H. destruct H as [H Hr].
    apply andb_true_iff in H. destruct H as [H _].
    apply andb_true_iff in H. destruct H as [Hs _].
    apply negb_true_iff in Hs. rewrite Hs, (IH _ Hr), string_app_assoc. reflexivity.
Qed.

(** A token is what [tokenize] makes of it alone. *)
Lemma tokenize_token (t : string) : token_shape t -> tokenize t = [t].
Proof.
  intros [->|[->|H]]; [reflexivity|reflexivity|].
  unfold tokenize, split. fold (padded_text t).
  assert (Hp : plain_chars t = true) by (destruct t; [discriminate H|exact H]).
  rewrite (plain_chars_padded _ Hp), (plain_chars_split_from _ _ Hp). simpl.
  destruct t; [discriminate H|reflexivity].
Qed.

Lemma tokenize_concat (tokens : list string) :
  Forall token_shape tokens -> tokenize (String.concat " " tokens) = tokens.
Proof.
  induction 1 as [|t ts Ht Hts IH]; [reflexivity|].
  destruct ts as [|u ts]; [exact (tokenize_token _ Ht)|].
  change (String.concat " " (t :: u :: ts))
    with (t ++ String " " (String.concat " " (u :: ts))).
  rewrite (tokenize_space _ _ " "%char eq_refl), IH, (tokenize_token _ Ht).
  reflexivity.
Qed.

(** X3. Tokens written with a blank between them tokenize to themselves;
    so writing the tokens of a text and tokenizing again changes nothing. *)
Theorem tokenize_written_tokens :
  (forall tokens, Forall token_shape tokens ->
     tokenize (String.concat " " tokens) = tokens) /\
  (forall s, tokenize (String.concat " " (tokenize s)) = tokenize s).
Proof.
  split; [exact tokenize_concat|]. intros s. apply tokenize_concat, tokenize_shape.
Qed.

(** X4. Every token is a parenthesis or a run of characters that holds
    neither white space nor a parenthesis, and is not empty. *)
Theorem tokens_well_shaped (source_code : string) :
  Forall (fun t => t = "(" \/ t = ")" \/
                   (t <> EmptyString /\ plain_chars t = true))
         (tokenize source_code).
Proof.
  eapply Forall_impl; [|apply tokenize_shape].
  intros t [H|[H|H]]; [left; exact H|right; left; exact H|right; right].
  destruct t; [discriminate H|]. split; [discriminate|exact H].
Qed.

(** * Further properties of the reader *)

Section ReaderGrammar.

Variable maxint : Z.

Lemma flatten_head (tr : ttree) :
  leaves_ok tr = true ->
  exists t ts, flatten tr = t :: ts /\ String.eqb t ")" = false.
Proof.
  destruct tr as [token|children]; simpl; intros H.
  - apply andb_true_iff in H. destruct H as [_ H]. apply negb_true_iff in H.
    eexists _, _. split; [reflexivity|exact H].
  - eexists _, _. split; reflexivity.
Qed.

(** With fuel enough, [read] on the tokens of a tree gives the expression
    of the tree and leaves what follows. *)
Lemma read_fuel_flatten (tr : ttree) :
  leaves_ok tr = true ->
  exists fuel, forall fuel', (fuel <= fuel')%nat -> forall rest,
    read_fuel maxint fuel' (flatten tr ++ rest) = Some (Ok (build maxint tr, rest)).
Proof.
  induction tr as [token|children IH] using ttree_nested_ind; intros Hok.
  - exists 1%nat. intros [|fuel'] Hle rest; [lia|]. simpl in *.
    apply andb_true_iff in Hok. destruct Hok as [Ho Hc].
    apply negb_true_iff in Ho, Hc. rewrite Ho, Hc. reflexivity.
  - assert (Hloop : exists fuel, forall fuel', (fuel <= fuel')%nat ->
              forall parsed rest,
                read_loop maxint fuel' parsed (flat_map flatten children ++ ")" :: rest)
                = Some (Ok (EList (parsed ++ map (build maxint) children), rest))).
    { simpl in Hok. clear -IH Hok.
      induction IH as [|x l Hx _ IHl].
      - exists 1%nat. intros [|fuel'] Hle parsed rest; [lia|]. simpl.
        rewrite List.app_nil_r. reflexivity.
      - simpl in Hok. apply andb_true_iff in Hok. destruct Hok as [Hxo Hlo].
        destruct (Hx Hxo) as [fx Hfx]. destruct (IHl Hlo) as [fl Hfl].
        destruct (flatten_head x Hxo) as (t & ts & Hflat & Ht).
        exists (S (Nat.max fx fl)). intros [|fuel'] Hle parsed rest; [lia|].
        simpl flat_map. rewrite <- List.app_assoc.
        pose proof (Hfx fuel' ltac:(lia) (flat_map flatten l ++ ")" :: rest)%list) as Hr.
        rewrite Hflat in Hr |- *. simpl. simpl in Hr. rewrite Ht. simpl.
        rewrite Hr. rewrite (Hfl fuel' ltac:(lia)). rewrite <- List.app_assoc. reflexivity. }
    destruct Hloop as [fuel Hloop]. exists (S fuel).
    intros [|fuel'] Hle rest; [lia|]. simpl. rewrite <- List.app_assoc. simpl.
    rewrite (Hloop fuel' ltac:(lia) [] rest). reflexivity.
Qed.

(** A successful [read] has consumed the tokens of a tree. *)
Lemma read_fuel_tree (fuel : nat) :
  (forall tokens e rest,
     read_fuel maxint fuel tokens = Some (Ok (e, rest)) ->
     exists tr, leaves_ok tr = true /\ tokens = (flatten tr ++ rest)%list /\
                e = build maxint tr) /\
  (forall parsed tokens e rest,
     read_loop maxint fuel parsed tokens = Some (Ok (e, rest)) ->
     exists l, forallb leaves_ok l = true /\
               tokens = (flat_map flatten l ++ ")" :: rest)%list /\
               e = EList (parsed ++ map (build maxint) l)).
Proof.
  induction fuel as [|fuel [IHr IHl]]; split; try discriminate.
  - intros tokens e rest H. simpl in H. destruct tokens as [|t ts]; [discriminate H|].
    destruct (String.eqb t "(") eqn:Eo.
    + apply String.eqb_eq in Eo. subst t.
      destruct (IHl _ _ _ _ H) as (l & Hok & -> & ->).
      exists (TNode l). split; [exact Hok|]. split; [|reflexivity].
      simpl. rewrite <- List.app_assoc. reflexivity.
    + destruct (String.eqb t ")") eqn:Ec; [discriminate H|].
      injection H as <- <-. exists (TLeaf t). simpl. rewrite Eo, Ec.
      repeat split.
  - intros parsed tokens e rest H. simpl in H.
    destruct tokens as [|t ts]; [discriminate H|].
    destruct (String.eqb t ")") eqn:Ec; simpl in H.
    + apply String.eqb_eq in Ec. subst t. injection H as <- <-.
      exists []. simpl. rewrite List.app_nil_r. repeat split.
    + destruct (read_fuel maxint fuel (t :: ts)) as [[[e1 ts1]|err]|] eqn:E;
        try discriminate H.
      destruct (IHr _ _ _ E) as (tr & Hok & Htok & ->).
      destruct (IHl _ _ _ _ H) as (l & Hlok & -> & ->).
      exists (tr :: l). simpl. rewrite Hok, Hlok, Htok, <- !List.app_assoc.
      repeat split.
Qed.

(** The same of [read] with its own budget. *)
Lemma read_flatten (tr : ttree) (rest : list string) :
  leaves_ok tr = true ->
  read maxint (flatten tr ++ rest) = Some (Ok (build maxint tr, rest)).
Proof.
  intros Hok. destruct (read_fuel_flatten tr Hok) as [fuel Hfuel].
  destruct (read_total maxint (flatten tr ++ rest)) as [r Hr].
  rewrite Hr. unfold read in Hr.
  set (budget := read_budget (flatten tr ++ rest)) in *.
  assert (Hb : (budget <= Nat.max fuel budget)%nat) by lia.
  assert (Hf : (fuel <= Nat.max fuel budget)%nat) by lia.
  pose proof (proj1 (read_fuel_mono maxint budget) _ _ Hr _ Hb) as Hm.
  rewrite (Hfuel _ Hf) in Hm. symmetry. exact Hm.
Qed.

Lemma read_tree (tokens : list string) (e : expr) (rest : list string) :
  read maxint tokens = Some (Ok (e, rest)) ->
  exists tr, leaves_ok tr = true /\ tokens = (flatten tr ++ rest)%list /\
             e = build maxint tr.
Proof. apply (proj1 (read_fuel_tree _)). Qed.

End ReaderGrammar.

(** X5. What [read] accepts: it succeeds with expression [e], leaving
    [rest], exactly when the tokens are those of a tree of tokens followed
    by [rest], and then [e] is that tree with [atom] at its leaves. *)
Theorem read_accepts_trees
  (maxint : Z) (tokens : list string) (e : expr) (rest : list string) :
  read maxint tokens = Some (Ok (e, rest)) <->
  exists tr, leaves_ok tr = true /\ tokens = (flatten tr ++ rest)%list /\
             e = build maxint tr.
Proof.
  split; [apply read_tree|].
  intros (tr & Hok & -> & ->). apply read_flatten. exact Hok.
Qed.

Lemma parse_read (maxint : Z) (s : string) (e : expr) :
  parse maxint s = Some (Ok e) <->
  exists rest, read maxint (tokenize s) = Some (Ok (e, rest)).
Proof.
  unfold parse. destruct (read maxint (tokenize s)) as [[[e' rest]|err]|]; split.
  - intros [= <-]. exists rest. reflexivity.
  - intros (rest' & [= <- _]). reflexivity.
  - discriminate.
  - intros (rest & H). discriminate H.
  - discriminate.
  - intros (rest & H). discriminate H.
Qed.

Lemma read_app (maxint : Z) (tokens : list string) (e : expr) (rest extra : list string) :
  read maxint tokens = Some (Ok (e, rest)) ->
  read maxint (tokens ++ extra) = Some (Ok (e, (rest ++ extra)%list)).
Proof.
  intros H. destruct (read_tree maxint _ _ _ H) as (tr & Hok & -> & ->).
  rewrite <- List.app_assoc. apply read_flatten. exact Hok.
Qed.

(** X6. [read] reads the first expression and leaves what follows as it
    is, whatever it is; [parse] drops it. So a line that holds a complete
    expression, then white space or a parenthesis, then anything at all,
    parses to that expression: a stray closing parenthesis after it is not
    reported. *)
Theorem read_first_expression (maxint : Z) :
  (forall tokens e rest extra,
     read maxint tokens = Some (Ok (e, rest)) ->
     read maxint (tokens ++ extra) = Some (Ok (e, (rest ++ extra)%list))) /\
  (forall a b c e,
     is_space c = true \/ c = "("%char \/ c = ")"%char ->
     parse maxint a = Some (Ok e) ->
     parse maxint (a ++ String c b) = Some (Ok e)) /\
  parse maxint "(+ 1 2)) 3 (" = parse maxint "(+ 1 2)".
Proof.
  split; [apply read_app|]. split; [|reflexivity].
  intros a b c e Hc H. apply parse_read in H. destruct H as [rest H].
  apply parse_read.
  destruct Hc as [Hc|[->| ->]].
  - rewrite (tokenize_space _ _ _ Hc). eexists. apply read_app. exact H.
  - rewrite tokenize_open. eexists. apply read_app. exact H.
  - rewrite tokenize_close. eexists. apply read_app. exact H.
Qed.

(** * Writing and reading back *)

Section Readable.

Variable maxint : Z.

Lemma atom_numeral (n : Z) :
  atom maxint (str_int n) = if fits_int maxint n then EInt n else ELong n.
Proof.
  destruct (str_int_numeral n) as (Htok & _ & Hval).
  unfold atom, int_. rewrite (integer_token_match _ Htok), Hval. reflexivity.
Qed.

Lemma atom_symbol (name : string) :
  plain_token name = true -> integer_token name = false ->
  atom maxint name = ESym name.
Proof.
  intros Hp Hn. unfold atom. rewrite (plain_token_match _ Hp), Hn. reflexivity.
Qed.

Lemma plain_token_leaf (t : string) :
  plain_token t = true -> leaves_ok (TLeaf t) = true.
Proof.
  intros H. destruct (plain_token_not_paren _ H) as [Ho Hc].
  simpl. rewrite Ho, Hc. reflexivity.
Qed.

(** The tree a readable expression is written as has tokens for leaves and
    builds the expression. *)
Lemma tree_of_readable (e : expr) :
  readable maxint e = true ->
  leaves_plain (tree_of e) = true /\ build maxint (tree_of e) = e.
Proof.
  induction e as [n|n|name|items IH] using expr_nested_ind; simpl; intros H.
  - split; [exact (integer_token_plain _ (proj1 (str_int_numeral n)))|].
    rewrite atom_numeral, H. reflexivity.
  - split; [exact (integer_token_plain _ (proj1 (str_int_numeral n)))|].
    rewrite atom_numeral. apply negb_true_iff in H. rewrite H. reflexivity.
  - apply andb_true_iff in H. destruct H as [Hp Hn]. apply negb_true_iff in Hn.
    split; [exact Hp|exact (atom_symbol _ Hp Hn)].
  - induction IH as [|x l Hx _ IHl]; [split; reflexivity|].
    simpl in H. apply andb_true_iff in H. destruct H as [Hxr Hlr].
    destruct (Hx Hxr) as [Hxp Hxb]. destruct (IHl Hlr) as [Hlp Hlb].
    simpl. rewrite Hxp, Hxb. simpl in Hlp. rewrite Hlp.
    injection Hlb as Hlb. rewrite Hlb. split; reflexivity.
Qed.

Lemma leaves_plain_ok (tr : ttree) : leaves_plain tr = true -> leaves_ok tr = true.
Proof.
  induction tr as [t|children IH] using ttree_nested_ind; intros H.
  - exact (plain_token_leaf _ H).
  - simpl in *. induction IH as [|x l Hx _ IHl]; [reflexivity|].
    simpl in *. apply andb_true_iff in H. destruct H as [Hxp Hlp].
    rewrite (Hx Hxp), (IHl Hlp). reflexivity.
Qed.

Lemma flatten_shape (tr : ttree) :
  leaves_plain tr = true -> Forall token_shape (flatten tr).
Proof.
  induction tr as [t|children IH] using ttree_nested_ind; intros H.
  - constructor; [right; right; exact H|constructor].
  - simpl in *. constructor; [left; reflexivity|].
    apply Forall_app. split; [|constructor; [right; left; reflexivity|constructor]].
    induction IH as [|x l Hx _ IHl]; [constructor|].
    simpl in *. apply andb_true_iff in H. destruct H as [Hxp Hlp].
    apply Forall_app. split; [exact (Hx Hxp)|exact (IHl Hlp)].
Qed.

(** A tree without parentheses for leaves, whose tokens have the shape of
    tokens, has tokens for leaves. *)
Lemma shaped_leaves_plain (tr : ttree) :
  leaves_ok tr = true -> Forall token_shape (flatten tr) ->
  leaves_plain tr = true.
Proof.
  induction tr as [t|children IH] using ttree_nested_ind; intros Hok Hs.
  - simpl in *. inversion Hs as [|? ? Ht _]; subst.
    apply andb_true_iff in Hok. destruct Hok as [Ho Hc].
    apply negb_true_iff in Ho, Hc.
    destruct Ht as [->|[->|Ht]]; [discriminate Ho|discriminate Hc|exact Ht].
  - simpl in *. inversion Hs as [|? ? _ Hs']; subst. clear Hs.
    apply Forall_app in Hs'. destruct Hs' as [Hs _].
    induction IH as [|x l Hx _ IHl]; [reflexivity|].
    simpl in *. apply andb_true_iff in Hok. destruct Hok as [Hxo Hlo].
    apply Forall_app in Hs. destruct Hs as [Hxs Hls].
    rewrite (Hx Hxo Hxs), (IHl Hlo Hls). reflexivity.
Qed.

(** What [atom] makes of a token is readable. *)
Lemma atom_readable (t : string) :
  plain_token t = true -> readable maxint (atom maxint t) = true.
Proof.
  intros Hp. unfold atom. rewrite (plain_token_match _ Hp).
  destruct (integer_token t) eqn:Hn.
  - unfold int_. destruct (fits_int maxint (int_value t)) eqn:Hf; simpl; rewrite Hf; reflexivity.
  - simpl. rewrite Hp, Hn. reflexivity.
Qed.

Lemma build_readable (tr : ttree) :
  leaves_plain tr = true -> readable maxint (build maxint tr) = true.
Proof.
  induction tr as [t|children IH] using ttree_nested_ind; intros H.
  - exact (atom_readable _ H).
  - simpl in *. induction IH as [|x l Hx _ IHl]; [reflexivity|].
    simpl in *. apply andb_true_iff in H. destruct H as [Hxp Hlp].
    rewrite (Hx Hxp), (IHl Hlp). reflexivity.
Qed.

(** Read from tokens, an expression is readable. *)
Lemma read_readable (tokens : list string) (e : expr) (rest : list string) :
  Forall token_shape tokens ->
  read maxint tokens = Some (Ok (e, rest)) ->
  readable maxint e = true.
Proof.
  intros Hs H. destruct (read_tree maxint _ _ _ H) as (tr & Hok & -> & ->).
  apply Forall_app in Hs. destruct Hs as [Hs _].
  apply build_readable, shaped_leaves_plain; assumption.
Qed.

(** Written and read back, a readable expression is itself. *)
Lemma read_unparse (e : expr) (rest : list string) :
  readable maxint e = true ->
  read maxint (unparse e ++ rest) = Some (Ok (e, rest)).
Proof.
  intros H. destruct (tree_of_readable e H) as [Hp Hb].
  unfold unparse. rewrite (read_flatten maxint _ rest (leaves_plain_ok _ Hp)), Hb.
  reflexivity.
Qed.

Lemma parse_show (e : expr) :
  readable maxint e = true -> parse maxint (show e) = Some (Ok e).
Proof.
  intros H. apply parse_read. exists [].
  unfold show. destruct (tree_of_readable e H) as [Hp Hb].
  unfold unparse. rewrite (tokenize_concat _ (flatten_shape _ Hp)).
  fold (unparse e).
  rewrite <- (List.app_nil_r (unparse e)). apply read_unparse. exact H.
Qed.

End Readable.

(** X7. What [parse] returns is well formed: every [int] in it fits the
    machine word and every [long] does not, and every symbol is a token, not
    empty, free of white space and parentheses, and not a numeral. *)
Theorem parse_gives_readable (maxint : Z) (s : string) (e : expr) :
  parse maxint s = Some (Ok e) -> readable maxint e = true.
Proof.
  intros H. apply parse_read in H. destruct H as [rest H].
  exact (read_readable maxint _ _ _ (tokenize_shape s) H).
Qed.

(** At the text [(+ 1 (- 2 x))]. *)
Lemma parse_gives_readable_witness :
  parse maxint64 "(+ 1 (- 2 x))"
    = Some (Ok (EList [ESym "+"; EInt 1; EList [ESym "-"; EInt 2; ESym "x"]])) /\
  readable maxint64 (EList [ESym "+"; EInt 1; EList [ESym "-"; EInt 2; ESym "x"]]) = true.
Proof.
  split; [reflexivity|].
  exact (parse_gives_readable maxint64 "(+ 1 (- 2 x))" _ eq_refl).
Defined.

(** X8. Reading undoes writing: the tokens of a well-formed expression,
    followed by anything, are read as that expression, and its text parses
    to it. So the text of a parsed expression parses to the same
    expression. *)
Theorem read_undoes_unparse (maxint : Z) (e : expr) :
  readable maxint e = true ->
  (forall rest, read maxint (unparse e ++ rest) = Some (Ok (e, rest))) /\
  parse maxint (show e) = Some (Ok e) /\
  (forall s e', parse maxint s = Some (Ok e') ->
     parse maxint (show e') = Some (Ok e')).
Proof.
  intros H. split; [intros rest; apply read_unparse; exact H|].
  split; [apply parse_show; exact H|].
  intros s e' Hs. apply parse_show. apply parse_read in Hs.
  destruct Hs as [rest Hs].
  exact (read_readable maxint _ _ _ (tokenize_shape s) Hs).
Qed.

(** At the expression [(if (< -7 x) 0 12)]. *)
Lemma read_undoes_unparse_witness :
  readable maxint64
    (EList [ESym "if"; EList [ESym "<"; EInt (-7); ESym "x"]; EInt 0; EInt 12]) = true /\
  show (EList [ESym "if"; EList [ESym "<"; EInt (-7); ESym "x"]; EInt 0; EInt 12])
    = "( if ( < -7 x ) 0 12 )" /\
  parse maxint64 "( if ( < -7 x ) 0 12 )"
    = Some (Ok (EList [ESym "if"; EList [ESym "<"; EInt (-7); ESym "x"]; EInt 0; EInt 12])).
Proof.
  split; [reflexivity|]. split; [reflexivity|].
  exact (proj1 (proj2 (read_undoes_unparse maxint64
    (EList [ESym "if"; EList [ESym "<"; EInt (-7); ESym "x"]; EInt 0; EInt 12])
    eq_refl))).
Defined.

(** * Further properties of the evaluator *)

(** ** A property of computations that [evaluate] keeps *)

Section EvaluateClosure.

Variable host_cmp : value -> value -> comparison.

(** The property, and whether writing has it. *)
Variable Q : forall A : Type, M A -> Prop.
Variable W : Prop.

Hypothesis Q_lift : forall (A : Type) (r : result A), allowed r -> Q A (lift r).
Hypothesis Q_bind : forall (A B : Type) (m : M A) (k : A -> M B),
  Q A m -> (forall a, returns m a -> Q B (k a)) -> Q B (bind m k).
Hypothesis Q_write : W -> forall v, Q unit (write v).

#[local] Abbreviation eval := (evaluate host_cmp).

Lemma find_command_allowed head : allowed (find_command head).
Proof. destruct head; simpl; auto. Qed.

Lemma check_args_allowed function args : allowed (check_args function args).
Proof.
  unfold check_args. destruct (is_None _ && _); [reflexivity|].
  destruct (_ <? _)%nat; simpl; auto.
Qed.

Lemma unpack2_allowed exps : allowed (unpack2 exps).
Proof. destruct exps as [|a [|b [|c exps]]]; simpl; auto. Qed.

Lemma apply_operator_allowed o a b : allowed (apply_operator host_cmp o a b).
Proof.
  destruct o, a as [x|f], b as [y|g]; simpl; auto.
  destruct (y =? 0); simpl; auto.
Qed.

Lemma Q_ret (A : Type) (a : A) : Q A (ret a).
Proof. apply (Q_lift A (Ok a)). exact I. Qed.

Lemma Q_raise (A : Type) (x : exn) : may_raise x = true -> Q A (raise x).
Proof. intros H. apply (Q_lift A (Raise x)). exact H. Qed.

Lemma Q_begin_rest rest :
  Forall (fun x => Q value (eval x)) rest ->
  forall v, Q value (begin_rest eval v rest).
Proof.
  induction 1 as [|x rest Hx _ IH]; intros v; simpl.
  - apply Q_ret.
  - apply Q_bind; [exact Hx|]. intros w _. apply IH.
Qed.

Lemma Q_evaluate_each items :
  Forall (fun x => Q value (eval x)) items ->
  Q (list value) (evaluate_each eval items).
Proof.
  induction 1 as [|x items Hx _ IH]; simpl.
  - apply Q_ret.
  - apply Q_bind; [exact Hx|]. intros v _.
    apply Q_bind; [exact IH|]. intros vs _. apply Q_ret.
Qed.

Lemma Q_call function args :
  Forall (fun x => Q value (eval x)) args ->
  (function = cmd_print -> W) ->
  Q value (call eval function args).
Proof.
  intros Hargs Hw. destruct function; simpl.
  - destruct args as [|test [|conseq [|alt [|]]]]; try (apply Q_raise; reflexivity).
    inversion Hargs as [|? ? Ht Hr]; subst.
    inversion Hr as [|? ? Hc Hr']; subst.
    inversion Hr' as [|? ? Ha _]; subst.
    unfold if_cmd. apply Q_bind; [exact Ht|].
    intros t _. destruct (truth t); assumption.
  - destruct args as [|arg [|]]; try (apply Q_raise; reflexivity).
    inversion Hargs as [|? ? Ha _]; subst.
    unfold print_cmd. apply Q_bind; [exact Ha|]. intros v _.
    apply Q_bind; [apply Q_write, Hw; reflexivity|]. intros _ _. apply Q_ret.
  - destruct args as [|first rest]; [apply Q_raise; reflexivity|].
    inversion Hargs as [|? ? Hf Hr]; subst.
    unfold begin_cmd. apply Q_bind; [exact Hf|]. intros v _.
    apply Q_begin_rest. exact Hr.
Qed.

Lemma uses_print_items head args :
  uses_print (EList (head :: args)) = false ->
  Forall (fun x => uses_print x = false) (head :: args) /\
  find_command head <> Ok (Some cmd_print).
Proof.
  simpl. intros H. apply orb_false_elim in H. destruct H as [Hh H].
  split.
  - apply Forall_forall. intros x Hx.
    destruct (uses_print x) eqn:E; [|reflexivity].
    assert (Ht : existsb uses_print (head :: args) = true)
      by (apply existsb_exists; exists x; split; assumption).
    simpl in Ht. rewrite Ht in H. discriminate H.
  - destruct head as [n|n|name|items]; try discriminate.
    unfold find_command, commands, dict_get.
    destruct (String.eqb_spec "if" name) as [<-|_]; [discriminate|].
    destruct (String.eqb_spec "print" name) as [<-|_]; [discriminate Hh|].
    destruct (String.eqb_spec "begin" name); discriminate.
Qed.

(** [evaluate] has the property on every expression when writing has it,
    and on the expressions free of [print] anyway. *)
Lemma evaluate_closed (e : expr) :
  W \/ uses_print e = false -> Q value (eval e).
Proof.
  induction e as [n|n|name|items IH] using expr_nested_ind; intros Hw.
  - apply Q_ret.
  - apply Q_raise. reflexivity.
  - simpl. destruct (dict_get operators name); [apply Q_ret|apply Q_raise; reflexivity].
  - destruct items as [|head args]; [apply Q_raise; reflexivity|].
    assert (Hitems : Forall (fun x => Q value (eval x)) (head :: args)).
    { destruct Hw as [Hw|Hw].
      - eapply Forall_impl; [|exact IH]. intros x Hx. apply Hx. left. exact Hw.
      - apply uses_print_items in Hw. destruct Hw as [Hw _].
        rewrite Forall_forall in *. intros x Hx. apply (IH x Hx).
        right. exact (Hw x Hx). }
    simpl. apply Q_bind; [apply Q_lift, find_command_allowed|].
    intros found (out & out' & Hfound). unfold lift in Hfound.
    injection Hfound as Hfound _.
    destruct found as [function|].
    + apply Q_bind; [apply Q_lift, check_args_allowed|]. intros _ _.
      apply Q_call; [inversion Hitems; assumption|].
      intros ->. destruct Hw as [Hw|Hw]; [exact Hw|].
      apply uses_print_items in Hw. destruct Hw as [_ Hw]. contradiction.
    + apply Q_bind; [apply (Q_evaluate_each (head :: args)); exact Hitems|].
      intros exps (out1 & out2 & Hexps).
      change (evaluate_each eval (head :: args) out1 = (Ok exps, out2)) in Hexps.
      apply (evaluate_each_length host_cmp) in Hexps.
      destruct exps as [|[n|o] exps]; [discriminate Hexps| |].
      * apply Q_raise. reflexivity.
      * apply Q_bind; [apply Q_lift, unpack2_allowed|]. intros a _.
        apply Q_lift, apply_operator_allowed.
Qed.

End EvaluateClosure.

(** ** The sink *)

Lemma appends_lift (A : Type) (r : result A) : appends (lift r).
Proof. intros out. unfold lift. simpl. rewrite List.app_nil_r. reflexivity. Qed.

Lemma appends_write (v : value) : appends (write v).
Proof. intros out. reflexivity. Qed.

Lemma appends_bind (A B : Type) (m : M A) (k : A -> M B) :
  appends m -> (forall a, returns m a -> appends (k a)) -> appends (bind m k).
Proof.
  intros Hm Hk out. unfold bind. rewrite (Hm out).
  destruct (m []) as [[a|e] w] eqn:E; simpl; [|reflexivity].
  assert (Ha : appends (k a)) by (apply Hk; exists [], w; exact E).
  rewrite (Ha (out ++ w)%list), (Ha w). simpl.
  rewrite <- List.app_assoc. reflexivity.
Qed.

Lemma silent_lift (A : Type) (r : result A) : silent (lift r).
Proof. intros out. reflexivity. Qed.

Lemma silent_bind (A B : Type) (m : M A) (k : A -> M B) :
  silent m -> (forall a, returns m a -> silent (k a)) -> silent (bind m k).
Proof.
  intros Hm Hk out. unfold bind. specialize (Hm out).
  destruct (m out) as [[a|e] out'] eqn:E; simpl in Hm; subst out'; [|reflexivity].
  apply Hk. exists out, out. exact E.
Qed.

Lemma raises_only_lift (A : Type) (r : result A) : allowed r -> raises_only (lift r).
Proof. intros H out x Hx. unfold lift in Hx. simpl in Hx. subst r. exact H. Qed.

Lemma raises_only_write (v : value) : raises_only (write v).
Proof. intros out x Hx. discriminate Hx. Qed.

Lemma raises_only_bind (A B : Type) (m : M A) (k : A -> M B) :
  raises_only m -> (forall a, returns m a -> raises_only (k a)) ->
  raises_only (bind m k).
Proof.
  intros Hm Hk out x. unfold bind. specialize (Hm out).
  destruct (m out) as [[a|e] out'] eqn:E; simpl.
  - apply Hk. exists out, out'. exact E.
  - intros [= <-]. apply Hm. reflexivity.
Qed.

Lemma evaluate_appends
  (host_cmp : value -> value -> comparison) (e : expr) : appends (evaluate host_cmp e).
Proof.
  apply (evaluate_closed host_cmp (@appends) True).
  - intros A r _. apply appends_lift.
  - exact appends_bind.
  - intros _. exact appends_write.
  - left. exact I.
Qed.

Lemma evaluate_may_raise
  (host_cmp : value -> value -> comparison) (e : expr) : raises_only (evaluate host_cmp e).
Proof.
  apply (evaluate_closed host_cmp (@raises_only) True).
  - exact raises_only_lift.
  - exact raises_only_bind.
  - intros _. exact raises_only_write.
  - left. exact I.
Qed.

(** X9. [evaluate] only adds to the sink, and what it gives and what it
    adds do not depend on what the sink held: evaluating with any sink is
    evaluating with the empty one and putting what was written after what
    was there. *)
Theorem evaluate_only_appends
  (host_cmp : value -> value -> comparison) (e : expr) (out : sink) :
  evaluate host_cmp e out
  = (fst (evaluate host_cmp e []), (out ++ snd (evaluate host_cmp e []))%list).
Proof. apply evaluate_appends. Qed.

(** X10. Only [print] writes: an expression none of whose lists is headed
    by the symbol [print] leaves the sink as it was, whether it has a value
    or fails. *)
Theorem evaluate_silent_without_print
  (host_cmp : value -> value -> comparison) (e : expr) (out : sink) :
  uses_print e = false -> snd (evaluate host_cmp e out) = out.
Proof.
  intros H. revert out.
  apply (evaluate_closed host_cmp (@silent) False).
  - intros A r _. apply silent_lift.
  - exact silent_bind.
  - intros [].
  - right. exact H.
Qed.

(** At [(begin (+ 1 2) (if 0 x 5))], with a sink that holds something. *)
Lemma evaluate_silent_without_print_witness :
  uses_print (EList [ESym "begin"; EList [ESym "+"; EInt 1; EInt 2];
                     EList [ESym "if"; EInt 0; ESym "x"; EInt 5]]) = false /\
  snd (evaluate cmp_unused
         (EList [ESym "begin"; EList [ESym "+"; EInt 1; EInt 2];
                 EList [ESym "if"; EInt 0; ESym "x"; EInt 5]]) [VInt 9])
  = [VInt 9].
Proof.
  split; [reflexivity|].
  exact (evaluate_silent_without_print cmp_unused
           (EList [ESym "begin"; EList [ESym "+"; EInt 1; EInt 2];
                   EList [ESym "if"; EInt 0; ESym "x"; EInt 5]]) [VInt 9] eq_refl).
Defined.

(** X11. The errors of the two phases are apart. [read] fails with
    [UnexpectedEndOfInput] or [UnexpectedRightParen] and nothing else.
    [evaluate] fails with [InvalidOperator], [MissingArguments],
    [TooManyArguments], or the host's [ZeroDivisionError], [TypeError] or
    [IndexError], and nothing else: never with an error of the reader. *)
Theorem errors_by_phase
  (maxint : Z) (host_cmp : value -> value -> comparison) :
  (forall tokens x, read maxint tokens = Some (Raise x) ->
     x = UnexpectedEndOfInput \/ x = UnexpectedRightParen) /\
  (forall e out x, fst (evaluate host_cmp e out) = Raise x ->
     (exists v, x = InvalidOperator v) \/ x = MissingArguments \/
     x = TooManyArguments \/ x = ZeroDivisionError \/
     x = TypeError \/ x = IndexError) /\
  (forall e out x, fst (evaluate host_cmp e out) = Raise x -> is_InputError x = false).
Proof.
  assert (H : forall e out x, fst (evaluate host_cmp e out) = Raise x ->
            may_raise x = true)
    by (intros e; apply evaluate_may_raise).
  split; [|split].
  - intros tokens x Hr. apply read_post_holds in Hr.
    destruct x; simpl in Hr; try contradiction; auto.
  - intros e out x Hx. apply H in Hx.
    destruct x; try discriminate Hx; eauto 10.
  - intros e out x Hx. apply H in Hx. destruct x; try discriminate Hx; reflexivity.
Qed.

(** ** The special forms [print] and [begin] *)

Lemma last_cons (A : Type) (vs : list A) : forall w d, last (w :: vs) d = last vs w.
Proof.
  induction vs as [|a vs IH]; intros w d; [reflexivity|].
  change (last (w :: a :: vs) d) with (last (a :: vs) d).
  rewrite (IH a d), (IH a w). reflexivity.
Qed.

(** The loop of [begin] is the comprehension of an application, keeping the
    last value only. *)
Lemma begin_rest_each (ev : expr -> M value) (rest : list expr) : forall v out,
  begin_rest ev v rest out =
  match evaluate_each ev rest out with
  | (Ok vs, out') => (Ok (last vs v), out')
  | (Raise e, out') => (Raise e, out')
  end.
Proof.
  induction rest as [|x rest IH]; intros v out; simpl; [reflexivity|].
  unfold bind. destruct (ev x out) as [[w|e] out1]; [|reflexivity].
  rewrite IH. destruct (evaluate_each ev rest out1) as [[vs|e] out2]; [|reflexivity].
  unfold ret. rewrite last_cons. reflexivity.
Qed.

(** X12. [(begin e1 ... en)] evaluates its expressions as an application
    evaluates its elements, in order and each in the sink the one before
    left, stopping at the first error, which is its outcome; when none fails
    its value is the value of the last. With one expression it is that
    expression. *)
Theorem begin_returns_last
  (host_cmp : value -> value -> comparison)
  (first : expr) (rest : list expr) (out : sink) :
  evaluate host_cmp (EList (ESym "begin" :: first :: rest)) out =
    match evaluate_each (evaluate host_cmp) (first :: rest) out with
    | (Ok vs, out') => (Ok (last vs (VInt 0)), out')
    | (Raise e, out') => (Raise e, out')
    end /\
  evaluate host_cmp (EList [ESym "begin"; first]) out = evaluate host_cmp first out.
Proof.
  assert (H : forall rest',
    evaluate host_cmp (EList (ESym "begin" :: first :: rest')) out =
    match evaluate_each (evaluate host_cmp) (first :: rest') out with
    | (Ok vs, out') => (Ok (last vs (VInt 0)), out')
    | (Raise e, out') => (Raise e, out')
    end).
  { intros rest'.
    rewrite (evaluate_command host_cmp "begin" cmd_begin) by reflexivity.
    run_check. unfold call, begin_cmd.
    rewrite evaluate_each_cons. unfold bind.
    destruct (evaluate host_cmp first out) as [[v|e] out1]; [|reflexivity].
    rewrite begin_rest_each.
    destruct (evaluate_each (evaluate host_cmp) rest' out1) as [[vs|e] out2];
      [|reflexivity].
    rewrite last_cons. reflexivity. }
  split; [apply H|]. rewrite H, evaluate_each_cons.
  destruct (evaluate host_cmp first out) as [[v|e] out1]; reflexivity.
Qed.

Lemma evaluate_print
  (host_cmp : value -> value -> comparison) (e : expr) (out : sink) :
  evaluate host_cmp (EList [ESym "print"; e]) out =
  match evaluate host_cmp e out with
  | (Ok v, out1) => (Ok v, (out1 ++ [v])%list)
  | (Raise x, out1) => (Raise x, out1)
  end.
Proof.
  rewrite (evaluate_command host_cmp "print" cmd_print) by reflexivity.
  run_check. unfold call, print_cmd, bind.
  destruct (evaluate host_cmp e out) as [[v|x] out1]; reflexivity.
Qed.

(** X13. [print] is an expression with the value of its argument: [e]
    inside [k] nested [print] has the value of [e] and writes it [k] times
    after what [e] itself wrote; when [e] fails, that is the outcome and
    nothing more is written. *)
Theorem print_writes_its_value
  (host_cmp : value -> value -> comparison) (k : nat) (e : expr) (out : sink) :
  evaluate host_cmp (printed k e) out =
  match evaluate host_cmp e out with
  | (Ok v, out1) => (Ok v, (out1 ++ repeat v k)%list)
  | (Raise x, out1) => (Raise x, out1)
  end.
Proof.
  induction k as [|k IH].
  - simpl. destruct (evaluate host_cmp e out) as [[v|x] out1];
      [rewrite List.app_nil_r|]; reflexivity.
  - change (printed (S k) e) with (EList [ESym "print"; printed k e]).
    rewrite evaluate_print, IH.
    destruct (evaluate host_cmp e out) as [[v|x] out1]; [|reflexivity].
    rewrite <- List.app_assoc. f_equal. f_equal.
    change [v] with (repeat v 1). rewrite <- repeat_app.
    rewrite Nat.add_1_r. reflexivity.
Qed.

(** ** The documented language *)

Section Documented.

Variable host_cmp : value -> value -> comparison.

#[local] Abbreviation eval := (evaluate host_cmp).
#[local] Abbreviation documented_outcome := (documented_evaluation host_cmp).

Lemma apply_operator_numbers o a b :
  milder (apply_operator host_cmp o (VInt a) (VInt b)).
Proof.
  destruct o; simpl; try (left; eexists; reflexivity).
  destruct (b =? 0); [right; reflexivity|left; eexists; reflexivity].
Qed.

Lemma milder_mild r : milder r -> mild r.
Proof. intros [H|H]; [left; exact H|right; right; right; exact H]. Qed.

Lemma mild_value v : mild (Ok v) \/ Ok v = Raise TypeError -> exists n, v = VInt n.
Proof.
  intros [[[n Hn]|[H|[H|H]]]|H]; try discriminate H.
  injection Hn as ->. eexists; reflexivity.
Qed.

(** The operands of a documented application: numbers, or an error, which
    is the host's [TypeError] only where there is a [long]. *)
Lemma documented_operands (args : list expr) :
  Forall documented_outcome args ->
  forallb documented args = true ->
  forall out,
    (exists vs, evaluate_each eval args out = (Ok vs, out) /\ all_numbers vs /\
                List.length vs = List.length args) \/
    (exists x, evaluate_each eval args out = (Raise x, out) /\
               (mild (Raise x) \/ @Raise value x = Raise TypeError) /\
               (existsb has_long args = false ->
                mild (Raise x) /\ (forallb binary args = true -> milder (Raise x)))).
Proof.
  induction 1 as [|a args Ha _ IH]; intros Hd out.
  - left. exists []. repeat split. constructor.
  - simpl in Hd. apply andb_true_iff in Hd. destruct Hd as [Had Hargs].
    destruct (Ha Had out) as (r & Hr & Hall & Hnl).
    rewrite evaluate_each_cons, Hr.
    destruct r as [v|x].
    + destruct (IH Hargs out) as [(vs & Hvs & Hn & Hl)|(x & Hx & Hxa & Hxn)].
      * left. exists (v :: vs). rewrite Hvs. repeat split.
        -- constructor; [exact (mild_value v Hall)|exact Hn].
        -- simpl. rewrite Hl. reflexivity.
      * right. exists x. rewrite Hx. split; [reflexivity|]. split; [exact Hxa|].
        intros Hlong. simpl in Hlong. apply orb_false_elim in Hlong.
        destruct (Hxn (proj2 Hlong)) as [Hm Hb]. split; [exact Hm|].
        intros Hbin. simpl in Hbin. apply andb_true_iff in Hbin. apply Hb, Hbin.
    + right. exists x. split; [reflexivity|]. split; [exact Hall|].
      intros Hlong. simpl in Hlong. apply orb_false_elim in Hlong.
      destruct (Hnl (proj1 Hlong)) as [Hm Hb]. split; [exact Hm|].
      intros Hbin. simpl in Hbin. apply andb_true_iff in Hbin. apply Hb, Hbin.
Qed.

Lemma documented_evaluates (e : expr) : documented_outcome e.
Proof.
  induction e as [n|n|name|items IH] using expr_nested_ind; intros Hd out;
    try discriminate Hd.
  - exists (Ok (VInt n)). split; [reflexivity|].
    assert (Hn : is_number (Ok (VInt n))) by (eexists; reflexivity).
    split; [left; left; exact Hn|]. intros _.
    split; [left; exact Hn|intros _; left; exact Hn].
  - exists (Raise TypeError). split; [reflexivity|].
    split; [right; reflexivity|]. intros Hlong. discriminate Hlong.
  - destruct items as [|[| |name|] args]; try discriminate Hd.
    simpl in Hd. destruct (dict_get operators name) as [o|] eqn:Ho; [|discriminate Hd].
    inversion IH as [|? ? _ IHargs]; subst.
    rewrite evaluate_list. unfold find_command.
    rewrite (operators_not_commands _ _ Ho).
    rewrite evaluate_each_cons, (evaluate_operator_symbol host_cmp _ _ _ Ho).
    change (has_long (EList (ESym name :: args))) with (existsb has_long args).
    change (binary (EList (ESym name :: args)))
      with ((List.length args =? 2)%nat && forallb binary args).
    destruct (documented_operands args IHargs Hd out)
      as [(vs & Hvs & Hn & Hl)|(x & Hx & Hxa & Hxn)].
    + rewrite Hvs.
      destruct vs as [|a [|b [|c vs]]].
      * exists (Raise MissingArguments).
        assert (Hm : mild (Raise MissingArguments)) by (right; left; reflexivity).
        split; [reflexivity|]. split; [left; exact Hm|]. intros _.
        split; [exact Hm|]. rewrite <- Hl. discriminate.
      * exists (Raise MissingArguments).
        assert (Hm : mild (Raise MissingArguments)) by (right; left; reflexivity).
        split; [reflexivity|]. split; [left; exact Hm|]. intros _.
        split; [exact Hm|]. rewrite <- Hl. discriminate.
      * inversion Hn as [|? ? [x ->] Hn']; subst.
        inversion Hn' as [|? ? [y ->] _]; subst.
        exists (apply_operator host_cmp o (VInt x) (VInt y)).
        pose proof (apply_operator_numbers o x y) as Hm.
        split; [reflexivity|]. split; [left; apply milder_mild; exact Hm|].
        intros _. split; [apply milder_mild; exact Hm|intros _; exact Hm].
      * exists (Raise TooManyArguments).
        assert (Hm : mild (Raise TooManyArguments))
          by (right; right; left; reflexivity).
        split; [reflexivity|]. split; [left; exact Hm|]. intros _.
        split; [exact Hm|]. rewrite <- Hl. discriminate.
    + rewrite Hx. exists (Raise x). split; [reflexivity|]. split; [exact Hxa|].
      intros Hlong. destruct (Hxn Hlong) as [Hm Hb]. split; [exact Hm|].
      intros Hbin. apply andb_true_iff in Hbin. apply Hb, Hbin.
Qed.

End Documented.

(** X14. On the language of the docstring, an integer of any size or a
    list of a value-op and expressions of the language, evaluation writes
    nothing and comes to a number, to one of [MissingArguments],
    [TooManyArguments] and [ZeroDivisionError], or to the host's
    [TypeError]; never to an operator, to [InvalidOperator] or to
    [IndexError]. [TypeError], which the loop does not catch, comes only
    where some integer is beyond [sys.maxint], and it does come there:
    [(+ 1 n)] with such an [n]. Where no integer is, the loop catches every
    error, and when besides every value-op has its two operands only
    division by zero can fail. *)
Theorem documented_language_is_safe
  (host_cmp : value -> value -> comparison) (e : expr) (out : sink) :
  documented e = true ->
  exists r,
    evaluate host_cmp e out = (r, out) /\
    ((exists n, r = Ok (VInt n)) \/ r = Raise MissingArguments \/
     r = Raise TooManyArguments \/ r = Raise ZeroDivisionError \/
     r = Raise TypeError) /\
    (r = Raise TypeError -> has_long e = true) /\
    (has_long e = false ->
       (forall x, repl_except r <> Uncaught x) /\
       (binary e = true ->
          (exists n, r = Ok (VInt n)) \/ r = Raise ZeroDivisionError)) /\
    (forall n,
       documented (EList [ESym "+"; EInt 1; ELong n]) = true /\
       evaluate host_cmp (EList [ESym "+"; EInt 1; ELong n]) out
         = (Raise TypeError, out)).
Proof.
  intros Hd. destruct (documented_evaluates host_cmp e Hd out) as (r & Hr & Hall & Hnl).
  exists r. split; [exact Hr|]. split; [|split; [|split]].
  - destruct Hall as [[Hm|[Hm|[Hm|Hm]]]|Hm]; auto 6.
  - intros Ht. destruct (has_long e); [reflexivity|].
    destruct (Hnl eq_refl) as [[[n Hn]|[Hm|[Hm|Hm]]] _];
      rewrite Ht in *; discriminate.
  - intros Hlong. destruct (Hnl Hlong) as [Hm Hb]. split; [|exact Hb].
    intros x. destruct Hm as [[n ->]|[ -> |[ -> | -> ]]]; discriminate.
  - intros n. split; [reflexivity|]. rewrite evaluate_list. reflexivity.
Qed.

(** At [(/ (+ 1 2) (- 4 4))]. *)
Lemma documented_language_is_safe_witness :
  documented (EList [ESym "/"; EList [ESym "+"; EInt 1; EInt 2];
                     EList [ESym "-"; EInt 4; EInt 4]]) = true /\
  exists r,
    evaluate cmp_unused
      (EList [ESym "/"; EList [ESym "+"; EInt 1; EInt 2];
              EList [ESym "-"; EInt 4; EInt 4]]) [] = (r, []) /\
    forall x, repl_except r <> Uncaught x.
Proof.
  split; [reflexivity|].
  destruct (documented_language_is_safe cmp_unused
              (EList [ESym "/"; EList [ESym "+"; EInt 1; EInt 2];
                      EList [ESym "-"; EInt 4; EInt 4]]) [] eq_refl)
    as (r & Hr & _ & _ & Hc & _).
  exists r. split; [exact Hr|exact (proj1 (Hc eq_refl))].
Defined.

(** ** Comparisons *)

(** An operator applied to two expressions that have values. *)
Lemma evaluate_operator_application
  (host_cmp : value -> value -> comparison)
  (name : string) (o : operator) (x y : expr) (v w : value) (out out1 out2 : sink) :
  dict_get operators name = Some o ->
  evaluate host_cmp x out = (Ok v, out1) ->
  evaluate host_cmp y out1 = (Ok w, out2) ->
  evaluate host_cmp (EList [ESym name; x; y]) out
    = (apply_operator host_cmp o v w, out2).
Proof.
  intros Ho Hx Hy. rewrite evaluate_list. unfold find_command.
  rewrite (operators_not_commands _ _ Ho).
  rewrite evaluate_each_cons, (evaluate_operator_symbol host_cmp _ _ _ Ho).
  cbv beta iota. rewrite evaluate_each_cons, Hx. cbv beta iota.
  rewrite evaluate_each_cons, Hy. reflexivity.
Qed.

(** X15. The three comparisons never fail and give 0 or 1, whatever the
    two values are, operators included. On two operands that evaluate to
    whole numbers [a] and [b], of any size, exactly one of [=], [<] and [>]
    gives 1, and it is the one that holds of [a] and [b]. *)
Theorem comparisons_decide (host_cmp : value -> value -> comparison) :
  (forall o v w, In o [op_eq; op_lt; op_gt] ->
     exists n, apply_operator host_cmp o v w = Ok (VInt n) /\ (n = 0 \/ n = 1)) /\
  (forall x y a b out out1 out2,
     evaluate host_cmp x out = (Ok (VInt a), out1) ->
     evaluate host_cmp y out1 = (Ok (VInt b), out2) ->
     exists e l g,
       evaluate host_cmp (EList [ESym "="; x; y]) out = (Ok (VInt e), out2) /\
       evaluate host_cmp (EList [ESym "<"; x; y]) out = (Ok (VInt l), out2) /\
       evaluate host_cmp (EList [ESym ">"; x; y]) out = (Ok (VInt g), out2) /\
       e + l + g = 1 /\
       (e = 1 <-> a = b) /\ (l = 1 <-> a < b) /\ (g = 1 <-> b < a)).
Proof.
  split.
  - intros o v w [<-|[<-|[<-|[]]]]; simpl.
    + destruct (value_eqb v w); eexists; split; try reflexivity; auto.
    + destruct (value_ltb host_cmp v w); eexists; split; try reflexivity; auto.
    + destruct (value_gtb host_cmp v w); eexists; split; try reflexivity; auto.
  - intros x y a b out out1 out2 Hx Hy.
    exists (if a =? b then 1 else 0), (if a <? b then 1 else 0),
           (if a >? b then 1 else 0).
    split; [exact (evaluate_operator_application host_cmp "=" op_eq
                     x y _ _ out out1 out2 eq_refl Hx Hy)|].
    split; [exact (evaluate_operator_application host_cmp "<" op_lt
                     x y _ _ out out1 out2 eq_refl Hx Hy)|].
    split; [exact (evaluate_operator_application host_cmp ">" op_gt
                     x y _ _ out out1 out2 eq_refl Hx Hy)|].
    rewrite Z.gtb_ltb.
    destruct (Z.eqb_spec a b), (Z.ltb_spec a b), (Z.ltb_spec b a);
      repeat split; intros; try lia; try discriminate.
Qed.

(** ** The operator position *)

(** X16. An application has a value only when its head is a symbol that
    names an operator, and a list has one only when its head is a symbol
    that names an operator or a special form: a number, a list or an unknown
    name in first position always fails, whatever follows. *)
Theorem list_value_needs_named_head
  (host_cmp : value -> value -> comparison)
  (head : expr) (args : list expr) (out out' : sink) (v : value) :
  evaluate host_cmp (EList (head :: args)) out = (Ok v, out') ->
  exists name,
    head = ESym name /\
    ((exists o, dict_get operators name = Some o) \/
     (exists function, dict_get commands name = Some function)).
Proof.
  rewrite evaluate_list. intros H.
  destruct head as [n|n|name|items]; simpl find_command in H.
  - rewrite evaluate_each_cons in H. simpl in H. unfold ret in H.
    destruct (evaluate_each (evaluate host_cmp) args out) as [[vs|e] o1];
      discriminate H.
  - rewrite evaluate_each_cons in H. discriminate H.
  - exists name. split; [reflexivity|].
    destruct (dict_get commands name) as [function|] eqn:Ec;
      [right; exists function; reflexivity|].
    destruct (dict_get operators name) as [o|] eqn:Ho;
      [left; exists o; reflexivity|].
    rewrite evaluate_each_cons in H. simpl in H. rewrite Ho in H. discriminate H.
  - discriminate H.
Qed.

(** At [(+ 1 2)]. *)
Lemma list_value_needs_named_head_witness :
  evaluate cmp_unused (EList [ESym "+"; EInt 1; EInt 2]) [] = (Ok (VInt 3), []) /\
  exists name,
    ESym "+" = ESym name /\
    ((exists o, dict_get operators name = Some o) \/
     (exists function, dict_get commands name = Some function)).
Proof.
  split; [reflexivity|].
  exact (list_value_needs_named_head cmp_unused (ESym "+") [EInt 1; EInt 2]
           [] [] (VInt 3) eq_refl).
Defined.

(** * Further properties of the loop *)

(** X17. A turn of the loop. With the global [output] left unbound, as the
    module leaves it, no line gets a value printed: the turn reports a
    syntax error or the name [output] fails, uncaught. With [output] bound
    the turn only adds to the sink; it prints a value, or reports one of the
    interpreter's errors or [ZeroDivisionError], or lets [TypeError] or
    [IndexError] out, and nothing else. *)
Theorem repl_turn_outcomes
  (host_cmp : value -> value -> comparison) (maxint : Z) (line : string) :
  (exists t,
     repl_turn host_cmp maxint None line = Some (t, None) /\
     (t = Reported UnexpectedEndOfInput \/ t = Reported UnexpectedRightParen \/
      t = Uncaught NameError)) /\
  (forall out, exists t written,
     repl_turn host_cmp maxint (Some out) line = Some (t, Some (out ++ written)%list) /\
     match t with
     | Printed _ => True
     | Reported x => is_InterpreterError x = true \/ x = ZeroDivisionError
     | Uncaught x => x = TypeError \/ x = IndexError
     end).
Proof.
  unfold repl_turn, parse.
  destruct (read_total maxint (tokenize line)) as [r Hr]. rewrite Hr.
  pose proof (read_post_holds maxint _ _ Hr) as Hp.
  destruct r as [[e rest]|x].
  - split.
    + exists (Uncaught NameError). split; [reflexivity|auto].
    + intros out. unfold repl_try.
      pose proof (evaluate_appends host_cmp e out) as Ha.
      pose proof (evaluate_may_raise host_cmp e out) as Hm.
      destruct (evaluate host_cmp e out) as [res out1].
      injection Ha as Hres ->. simpl in Hm.
      exists (repl_except res), (snd (evaluate host_cmp e [])).
      split; [reflexivity|].
      destruct res as [v|x]; simpl; [exact I|].
      specialize (Hm x eq_refl).
      destruct x; try discriminate Hm; simpl; auto.
  - assert (Hx : x = UnexpectedEndOfInput \/ x = UnexpectedRightParen)
      by (destruct x; simpl in Hp; try contradiction; auto).
    split.
    + exists (Reported x). split; [destruct Hx as [-> | ->]; reflexivity|].
      destruct Hx as [-> | ->]; auto.
    + intros out. exists (Reported x), [].
      rewrite List.app_nil_r. split; [destruct Hx as [-> | ->]; reflexivity|].
      destruct Hx as [-> | ->]; left; reflexivity.
Qed.

(** * The text of an error *)

Lemma unescape_escape (q c : ascii) (r : string) :
  q = "'"%char \/ q = "034"%char ->
  unescape_head (escape q c ++ r) = Some (c, r).
Proof.
  intros [-> | ->]; destruct c as [[] [] [] [] [] [] [] []]; reflexivity.
Qed.

Lemma escape_head_not_quote (q c : ascii) :
  q = "'"%char \/ q = "034"%char ->
  exists h t, escape q c = String h t /\ h <> q.
Proof.
  intros [-> | ->]; destruct c as [[] [] [] [] [] [] [] []];
    eexists _, _; (split; [reflexivity|discriminate]).
Qed.

Lemma escape_all_inj (q : ascii) :
  q = "'"%char \/ q = "034"%char ->
  forall s1 s2,
    escape_all q s1 ++ String q EmptyString = escape_all q s2 ++ String q EmptyString ->
    s1 = s2.
Proof.
  intros Hq. induction s1 as [|c1 s1 IH]; intros [|c2 s2] H; simpl in H.
  - reflexivity.
  - exfalso. destruct (escape_head_not_quote q c2 Hq) as (h & t & Hh & Hne).
    rewrite Hh in H. simpl in H. injection H as H _. congruence.
  - exfalso. destruct (escape_head_not_quote q c1 Hq) as (h & t & Hh & Hne).
    rewrite Hh in H. simpl in H. injection H as H _. congruence.
  - rewrite !string_app_assoc in H. apply (f_equal unescape_head) in H.
    rewrite !(unescape_escape q _ _ Hq) in H. injection H as -> H.
    f_equal. exact (IH _ H).
Qed.

Lemma quote_of_cases (s : string) : quote_of s = "'"%char \/ quote_of s = "034"%char.
Proof. unfold quote_of. destruct (_ && _); auto. Qed.

(** [repr] of a [str] tells the string. *)
Lemma repr_str_inj (s1 s2 : string) : repr_str s1 = repr_str s2 -> s1 = s2.
Proof.
  unfold repr_str. intros H. injection H as Hq H. rewrite <- Hq in H.
  exact (escape_all_inj _ (quote_of_cases s1) _ _ H).
Qed.

Lemma str_int_inj (n m : Z) : str_int n = str_int m -> n = m.
Proof.
  intros H. rewrite <- (proj2 (proj2 (str_int_numeral n))), H.
  exact (proj2 (proj2 (str_int_numeral m))).
Qed.

Lemma repr_inj (v w : payload) : repr v = repr w -> v = w.
Proof.
  assert (Hmix : forall s n, repr_str s <> str_int n).
  { intros s n H. pose proof (proj1 (str_int_numeral n)) as Htok.
    rewrite <- H in Htok. unfold repr_str in Htok.
    destruct (quote_of_cases s) as [Hq|Hq]; rewrite Hq in Htok; discriminate Htok. }
  destruct v as [s|n], w as [s'|n']; simpl; intros H.
  - f_equal. exact (repr_str_inj _ _ H).
  - exfalso. exact (Hmix _ _ H).
  - exfalso. exact (Hmix _ _ (eq_sym H)).
  - f_equal. exact (str_int_inj _ _ H).
Qed.

(** X18. The text of an interpreter error tells the error: it is the
    description of its class, followed for [InvalidOperator] by a colon and
    the [repr] of the value passed to it, and two interpreter errors with the
    same text are the same error with the same value. An unknown name
    [foo] reads [invalid operator: 'foo'], the number 0 in operator position
    [invalid operator: 0]. *)
Theorem error_text_tells_error :
  (forall x y text,
     InterpreterError_str x = Some text -> InterpreterError_str y = Some text ->
     x = y) /\
  (forall x, InterpreterError_str x = None <-> is_InterpreterError x = false) /\
  InterpreterError_str (InvalidOperator (PName "foo")) = Some "invalid operator: 'foo'" /\
  InterpreterError_str (InvalidOperator (PInt 0)) = Some "invalid operator: 0" /\
  InterpreterError_str MissingArguments = Some "missing arguments".
Proof.
  split; [|split; [|repeat split]].
  - intros x y text Hx Hy.
    destruct x as [| |v| | | | | | |], y as [| |w| | | | | | |];
      try discriminate Hx; try discriminate Hy;
      rewrite <- Hy in Hx; try reflexivity; try discriminate Hx.
    unfold InterpreterError_str in Hx. simpl in Hx.
    injection Hx as Hx. f_equal. exact (repr_inj _ _ Hx).
  - intros x. destruct x; simpl; split; intros H; try reflexivity; discriminate H.
Qed.

(** * The arity test and the call *)

(** X19. [check_args] passes exactly the argument lists that the host can
    bind to the parameters of the handler. So the call that follows a passed
    test reaches the handler, and never fails for the number of its
    arguments; and a list the test rejects would have failed in the call
    with the host's [TypeError]. *)
Theorem check_args_agrees_with_call
  (ev : expr -> M value) (function : command) (args : list expr) (out : sink) :
  (check_args function args = Ok tt <-> binds function args = true) /\
  (binds function args = false -> call ev function args out = (Raise TypeError, out)) /\
  (check_args function args = Ok tt ->
     match function, args with
     | cmd_if, [test; conseq; alt] =>
         call ev function args = if_cmd ev test conseq alt
     | cmd_print, [arg] => call ev function args = print_cmd ev arg
     | cmd_begin, first :: rest => call ev function args = begin_cmd ev first rest
     | _, _ => False
     end).
Proof.
  unfold check_args, binds.
  destruct function; simpl;
    destruct args as [|a [|b [|c [|d args]]]]; simpl;
    repeat split; intros; try reflexivity; try discriminate; try contradiction.
Qed.

(** * Integers beyond the machine word *)

(** The numeral of a whole number that does not fit an [int] is read as a
    [long]. *)
Lemma read_long_numeral (maxint : Z) (n : Z) :
  fits_int maxint n = false ->
  read maxint [str_int n] = Some (Ok (ELong n, [])).
Proof.
  intros Hf. pose proof (proj1 (str_int_numeral n)) as Htok.
  destruct (plain_token_not_paren _ (integer_token_plain _ Htok)) as [Ho Hc].
  rewrite (read_atom maxint _ Ho Hc), atom_numeral, Hf. reflexivity.
Qed.

(** C7. Division by zero of an integer beyond [sys.maxint]: its numeral
    is read as a [long], which [evaluate] takes for no number, so
    [(/ n 0)], and [(/ n d)] for any [d], fails with the host's [TypeError]
    where [evaluate] indexes the expression, not with [ZeroDivisionError];
    and that the loop does not catch. Nor does the loop, as the module
    stands, get to catch the fault of [(/ a 0)] for an [int]: the name
    [output] that it passes is bound nowhere, and the turn ends in
    [NameError]. *)
Theorem long_by_zero_raises_TypeError
  (maxint : Z) (host_cmp : value -> value -> comparison) (n : Z) (out : sink) :
  fits_int maxint n = false ->
  read maxint [str_int n] = Some (Ok (ELong n, [])) /\
  (forall divisor,
     evaluate host_cmp (EList [ESym "/"; ELong n; divisor]) out
       = (Raise TypeError, out)) /\
  @Raise value TypeError <> Raise ZeroDivisionError /\
  repl_try host_cmp (Some out) (Ok (EList [ESym "/"; ELong n; EInt 0]))
    = (Raise TypeError, Some out) /\
  repl_except (Raise TypeError) = Uncaught TypeError /\
  (forall a,
     repl_try host_cmp None (Ok (EList [ESym "/"; EInt a; EInt 0]))
       = (Raise NameError, None)) /\
  repl_except (Raise NameError) = Uncaught NameError.
Proof.
  intros Hf.
  assert (H : forall divisor,
             evaluate host_cmp (EList [ESym "/"; ELong n; divisor]) out
             = (Raise TypeError, out))
    by (intros divisor; rewrite evaluate_list; reflexivity).
  split; [exact (read_long_numeral maxint n Hf)|].
  split; [exact H|]. split; [discriminate|].
  split; [unfold repl_try; rewrite H; reflexivity|].
  repeat split.
Qed.

(** At [(/ 9223372036854775808 0)], with 64-bit [int]s. *)
Lemma long_by_zero_raises_TypeError_witness :
  fits_int maxint64 9223372036854775808 = false /\
  parse maxint64 "(/ 9223372036854775808 0)"
    = Some (Ok (EList [ESym "/"; ELong 9223372036854775808; EInt 0])) /\
  evaluate cmp_unused (EList [ESym "/"; ELong 9223372036854775808; EInt 0]) []
    = (Raise TypeError, []).
Proof.
  split; [reflexivity|]. split; [reflexivity|].
  exact (proj1 (proj2 (long_by_zero_raises_TypeError maxint64 cmp_unused
                         9223372036854775808 [] eq_refl)) (EInt 0)).
Defined.

(** C10. Division with an operand beyond [sys.maxint]: when the numeral of
    [a] or of [b] is read as a [long], [(/ a b)] fails with the host's
    [TypeError] and has no quotient. *)
Theorem long_division_raises_TypeError
  (maxint : Z) (host_cmp : value -> value -> comparison) (a b : Z) (out : sink) :
  fits_int maxint a = false \/ fits_int maxint b = false ->
  evaluate host_cmp
    (EList [ESym "/"; atom maxint (str_int a); atom maxint (str_int b)]) out
  = (Raise TypeError, out).
Proof.
  intros H. rewrite !atom_numeral, evaluate_list.
  destruct (fits_int maxint a), (fits_int maxint b), H as [H|H];
    try discriminate H; reflexivity.
Qed.

(** At [(/ 9223372036854775808 2)], with 64-bit [int]s. *)
Lemma long_division_raises_TypeError_witness :
  (fits_int maxint64 9223372036854775808 = false \/ fits_int maxint64 2 = false) /\
  parse maxint64 "(/ 9223372036854775808 2)"
    = Some (Ok (EList [ESym "/"; atom maxint64 (str_int 9223372036854775808);
                       atom maxint64 (str_int 2)])) /\
  evaluate cmp_unused
    (EList [ESym "/"; atom maxint64 (str_int 9223372036854775808);
            atom maxint64 (str_int 2)]) []
  = (Raise TypeError, []).
Proof.
  split; [left; reflexivity|]. split; [reflexivity|].
  exact (long_division_raises_TypeError maxint64 cmp_unused
           9223372036854775808 2 [] (or_introl eq_refl)).
Defined.
